(** * tinet-bridge: a serial <-> TCP relay

    A shallow embedding of [tinet-bridge.py]: the two channel threads
    ([SocketThread], [SerialThread]), the port locator [find_serial_port]
    and the wiring done by [main], over an explicit world (the two Python
    objects, the answers of the operating system, and the trace of I/O
    calls), followed by the properties of the relay. *)

From Stdlib Require Import ZArith QArith List Bool String Ascii Lia.
From Stdlib Require Import Strings.Byte.
Import ListNotations.
Open Scope Z_scope.

(* ================================================================== *)
(** ** Bytes, text and the UTF-8 codec *)
(* ================================================================== *)

(** Python [bytes] are lists of bytes; Python [str] are lists of code
    points. *)
Definition bytes := list byte.
Definition str := list Z.

Definition byte_val (b : byte) : Z := Z.of_N (Byte.to_N b).

Definition byte_of_Z (z : Z) : byte :=
  match Byte.of_N (Z.to_N z) with
  | Some b => b
  | None => x00
  end.

(** An ASCII literal of the source, as [bytes] and as [str]. *)
Definition lit_bytes (s : string) : bytes := list_byte_of_string s.
Definition lit (s : string) : str := map byte_val (list_byte_of_string s).

Definition is_cont (b : byte) : bool :=
  (128 <=? byte_val b) && (byte_val b <=? 191).

Definition is_surrogate (c : Z) : bool := (55296 <=? c) && (c <=? 57343).

(** [bytes.decode()]: the strict UTF-8 decoder.  [None] stands for
    [UnicodeDecodeError].  Overlong forms, surrogates and code points
    above U+10FFFF are rejected, as CPython does. *)
Fixpoint utf8_decode (bs : bytes) : option str :=
  match bs with
  | [] => Some []
  | b0 :: r0 =>
    let v0 := byte_val b0 in
    if v0 <? 128 then option_map (cons v0) (utf8_decode r0)
    else if v0 <? 194 then None
    else if v0 <? 224 then
      match r0 with
      | b1 :: r1 =>
        if is_cont b1
        then option_map (cons ((v0 - 192) * 64 + (byte_val b1 - 128)))
                        (utf8_decode r1)
        else None
      | [] => None
      end
    else if v0 <? 240 then
      match r0 with
      | b1 :: r1 =>
        match r1 with
        | b2 :: r2 =>
          let c := (v0 - 224) * 4096 + (byte_val b1 - 128) * 64
                   + (byte_val b2 - 128) in
          if is_cont b1 && is_cont b2 && (2048 <=? c) && negb (is_surrogate c)
          then option_map (cons c) (utf8_decode r2)
          else None
        | [] => None
        end
      | [] => None
      end
    else if v0 <? 245 then
      match r0 with
      | b1 :: r1 =>
        match r1 with
        | b2 :: r2 =>
          match r2 with
          | b3 :: r3 =>
            let c := (v0 - 240) * 262144 + (byte_val b1 - 128) * 4096
                     + (byte_val b2 - 128) * 64 + (byte_val b3 - 128) in
            if is_cont b1 && is_cont b2 && is_cont b3
               && (65536 <=? c) && (c <=? 1114111)
            then option_map (cons c) (utf8_decode r3)
            else None
          | [] => None
          end
        | [] => None
        end
      | [] => None
      end
    else None
  end.

(** One code point of [str.encode()]; [None] stands for
    [UnicodeEncodeError] (a lone surrogate, or no code point at all). *)
Definition encode_cp (c : Z) : option bytes :=
  if c <? 0 then None
  else if c <? 128 then Some [byte_of_Z c]
  else if c <? 2048 then
    Some [byte_of_Z (192 + c / 64); byte_of_Z (128 + c mod 64)]
  else if c <? 65536 then
    if is_surrogate c then None
    else Some [byte_of_Z (224 + c / 4096);
               byte_of_Z (128 + (c / 64) mod 64);
               byte_of_Z (128 + c mod 64)]
  else if c <=? 1114111 then
    Some [byte_of_Z (240 + c / 262144);
          byte_of_Z (128 + (c / 4096) mod 64);
          byte_of_Z (128 + (c / 64) mod 64);
          byte_of_Z (128 + c mod 64)]
  else None.

Fixpoint utf8_encode (s : str) : option bytes :=
  match s with
  | [] => Some []
  | c :: t =>
    match encode_cp c, utf8_encode t with
    | Some b, Some r => Some (b ++ r)
    | _, _ => None
    end
  end.

(** The decoder read bottom-up: a decoded text is built from one to four
    bytes at a time. *)
Inductive decodes : bytes -> str -> Prop :=
| dec_nil : decodes [] []
| dec_1 b0 r s :
    byte_val b0 < 128 -> decodes r s ->
    decodes (b0 :: r) (byte_val b0 :: s)
| dec_2 b0 b1 r s :
    194 <= byte_val b0 < 224 -> is_cont b1 = true -> decodes r s ->
    decodes (b0 :: b1 :: r)
            ((byte_val b0 - 192) * 64 + (byte_val b1 - 128) :: s)
| dec_3 b0 b1 b2 r s c :
    224 <= byte_val b0 < 240 -> is_cont b1 = true -> is_cont b2 = true ->
    c = (byte_val b0 - 224) * 4096 + (byte_val b1 - 128) * 64
        + (byte_val b2 - 128) ->
    2048 <= c -> is_surrogate c = false -> decodes r s ->
    decodes (b0 :: b1 :: b2 :: r) (c :: s)
| dec_4 b0 b1 b2 b3 r s c :
    240 <= byte_val b0 < 245 ->
    is_cont b1 = true -> is_cont b2 = true -> is_cont b3 = true ->
    c = (byte_val b0 - 240) * 262144 + (byte_val b1 - 128) * 4096
        + (byte_val b2 - 128) * 64 + (byte_val b3 - 128) ->
    65536 <= c <= 1114111 -> decodes r s ->
    decodes (b0 :: b1 :: b2 :: b3 :: r) (c :: s).

(** Code points that [str.encode()] accepts. *)
Definition scalar (c : Z) : Prop :=
  0 <= c <= 1114111 /\ is_surrogate c = false.

Section Lists.
Context {A : Type} (eqb : A -> A -> bool).

Fixpoint list_eqb (l1 l2 : list A) : bool :=
    match l1, l2 with
    | [], [] => true
    | a1 :: t1, a2 :: t2 => eqb a1 a2 && list_eqb t1 t2
    | _, _ => false
    end.

  (** [s.startswith(p)] *)
Fixpoint starts_with (p s : list A) : bool :=
    match p, s with
    | [], _ => true
    | a :: p', b :: s' => eqb a b && starts_with p' s'
    | _ :: _, [] => false
    end.

  (** [p in s] *)
Fixpoint contains (p s : list A) : bool :=
    match s with
    | [] => starts_with p []
    | _ :: t => starts_with p s || contains p t
    end.

  (** The scan of [s.replace(old, new)] for a non-empty [old]: left to
      right, occurrences do not overlap; [skip] counts the characters of
      the occurrence just replaced that are still to be passed over. *)
Fixpoint replace_from (old new : list A) (skip : nat) (s : list A)
    : list A :=
    match s with
    | [] => []
    | c :: t =>
      match skip with
      | S k => replace_from old new k t
      | O =>
        if starts_with old s
        then new ++ replace_from old new (List.length old - 1) t
        else c :: replace_from old new O t
      end
    end.
End Lists.

(** [s.replace(old, new)] on [str]. *)
Definition str_replace (old new s : str) : str :=
  replace_from Z.eqb old new O s.

Definition str_eqb : str -> str -> bool := list_eqb Z.eqb.
Definition bytes_eqb : bytes -> bytes -> bool := list_eqb Byte.eqb.

(** Truth value of a [bytes] object: [if data:]. *)
Definition truthy (data : bytes) : bool :=
  match data with [] => false | _ :: _ => true end.

(** Substring test on the descriptions of serial ports:
    ["TI-84" in port.description]. *)
Definition ascii_contains (p s : string) : bool :=
  contains Ascii.eqb (list_ascii_of_string p) (list_ascii_of_string s).

(* ================================================================== *)
(** ** Configuration *)
(* ================================================================== *)

(** The [CONFIG] block at the top of the file. *)
Record config := {
  SERVER_ADDRESS : string;
  SERVER_PORT : Z;
  SERIAL : bool;
  DEBUG : bool;
  MANUAL_PORT : bool;
  ENABLE_RECONNECT : bool
}.

(** The values the source assigns. *)
Definition source_config : config := {|
  SERVER_ADDRESS := "tinethub.tkbstudios.com";
  SERVER_PORT := 2052;
  SERIAL := true;
  DEBUG := true;
  MANUAL_PORT := false;
  ENABLE_RECONNECT := true
|}.

(* ================================================================== *)
(** ** Exceptions, results, events *)
(* ================================================================== *)

(** The exceptions that can travel through the two channels.  All of
    them are subclasses of Python's [Exception]. *)
Inductive exn :=
| UnicodeDecodeError            (* bytes.decode() on invalid UTF-8 *)
| UnicodeEncodeError            (* str.encode() on a lone surrogate *)
| AttributeError                (* attribute access on None *)
| RuntimeError                  (* Thread.join on the current or an unstarted thread *)
| SocketTimeout                 (* socket.timeout *)
| OSError                       (* any other failure of the socket *)
| SerialException.              (* any failure of the serial port *)

Definition exn_eqb (a b : exn) : bool :=
  match a, b with
  | UnicodeDecodeError, UnicodeDecodeError
  | UnicodeEncodeError, UnicodeEncodeError
  | AttributeError, AttributeError
  | RuntimeError, RuntimeError
  | SocketTimeout, SocketTimeout
  | OSError, OSError
  | SerialException, SerialException => true
  | _, _ => false
  end.

(** How a call ends: it returns, it raises, or it never returns within
    the scenario (a lock that stays held, a thread that never ends, an
    operating system that gives no further answer, a loop that outlives
    its fuel). *)
Inductive res (A : Type) :=
| Ok (a : A)
| Raise (e : exn)
| Hang.
Arguments Ok {A} a.
Arguments Raise {A} e.
Arguments Hang {A}.

Inductive thread_id := MainThread | SocketT | SerialT.

Definition thread_id_eqb (a b : thread_id) : bool :=
  match a, b with
  | MainThread, MainThread | SocketT, SocketT | SerialT, SerialT => true
  | _, _ => false
  end.

(** Life cycle of a [threading.Thread]. *)
Inductive thread_state := Unstarted | Running | Finished.

(** The two [threading.Lock]s, one per channel. *)
Inductive lock_id := SocketLock | SerialLock.

(** Calls that leave the process, in the order they are made. *)
Inductive event :=
| SockCreate                                         (* socket.socket(AF_INET, SOCK_STREAM) *)
| SockSetTimeout (t : Q)                             (* sock.settimeout(t) *)
| SockConnect (host : string) (port : Z)             (* sock.connect((host, port)) *)
| SockRecv (bufsize : Z) (timeout : option Q)        (* sock.recv(bufsize), under the socket's timeout *)
| SockSend (data : bytes)                            (* sock.send(data) *)
| SockClose                                          (* sock.close() *)
| SerialOpen (dev : string) (baud : Z) (timeout : Z) (* serial.Serial(dev, baudrate, timeout) *)
| SerialRead                                         (* ser.read(ser.in_waiting) *)
| SerialWrite (data : bytes)                         (* ser.write(data) *)
| SerialCancelRead                                   (* ser.cancel_read() *)
| Comports                                           (* list_ports.comports() *)
| Sleep (secs : Z)                                   (* time.sleep(secs) *)
| LogError (payload : bytes)                         (* logging.error(...) *)
| LogErrorMsg (msg : string)
| LogDebug (text : str)                              (* logging.debug(...) *)
| Acquire (l : lock_id)                              (* entering `with self._lock` *)
| Release (l : lock_id)                              (* leaving it *)
| Join (target : thread_id) (timeout : option Z).    (* thread.join(timeout) *)

(* ================================================================== *)
(** ** The world *)
(* ================================================================== *)

(** The object behind [SocketThread.socket] once it is created. *)
Record socket_obj := {
  so_timeout : option Q;          (* None: blocking mode *)
  so_connected : bool;
  so_closed : bool
}.

(** The object behind [SerialThread.serial]. *)
Record serial_obj := {
  sp_device : string;
  sp_is_open : bool
}.

(** An entry of [list_ports.comports()]. *)
Record port := {
  device : string;
  description : string
}.

(** What the operating system answers, call by call.  Each queue serves
    one kind of call, oldest answer first. *)
Record environment := {
  recv_q : list (res bytes);      (* socket.recv *)
  send_q : list (res Z);          (* socket.send; exhausted: all bytes are taken *)
  connect_q : list (res unit);    (* socket.connect; exhausted: it succeeds *)
  read_q : list (res bytes);      (* serial.read *)
  swrite_q : list (res Z);        (* serial.write; exhausted: all bytes are taken *)
  open_q : list (res unit);       (* serial.Serial(...); exhausted: it succeeds *)
  scan_q : list (list port)       (* comports() *)
}.

(** The attributes of the [SocketThread] object ([sock_*]) and of the
    [SerialThread] object ([ser_*]), the environment and the trace.  A
    peer reference is either [None] or the one object of the other class,
    so a boolean holds it. *)
Record world := {
  sock_alive : bool;
  sock_socket : option socket_obj;
  sock_serial_manager : bool;
  sock_lock : bool;               (* true: held *)
  sock_thread : thread_state;
  ser_alive : bool;
  ser_serial : serial_obj;
  ser_serial_port : string;
  ser_socket_manager : bool;
  ser_lock : bool;
  ser_thread : thread_state;
  env : environment;
  trace : list event
}.

Definition set_sock_alive (b : bool) (w : world) : world :=
  {| sock_alive := b; sock_socket := sock_socket w;
     sock_serial_manager := sock_serial_manager w; sock_lock := sock_lock w;
     sock_thread := sock_thread w; ser_alive := ser_alive w;
     ser_serial := ser_serial w; ser_serial_port := ser_serial_port w;
     ser_socket_manager := ser_socket_manager w; ser_lock := ser_lock w;
     ser_thread := ser_thread w; env := env w; trace := trace w |}.

Definition set_sock_socket (s : option socket_obj) (w : world) : world :=
  {| sock_alive := sock_alive w; sock_socket := s;
     sock_serial_manager := sock_serial_manager w; sock_lock := sock_lock w;
     sock_thread := sock_thread w; ser_alive := ser_alive w;
     ser_serial := ser_serial w; ser_serial_port := ser_serial_port w;
     ser_socket_manager := ser_socket_manager w; ser_lock := ser_lock w;
     ser_thread := ser_thread w; env := env w; trace := trace w |}.

Definition set_sock_serial_manager (b : bool) (w : world) : world :=
  {| sock_alive := sock_alive w; sock_socket := sock_socket w;
     sock_serial_manager := b; sock_lock := sock_lock w;
     sock_thread := sock_thread w; ser_alive := ser_alive w;
     ser_serial := ser_serial w; ser_serial_port := ser_serial_port w;
     ser_socket_manager := ser_socket_manager w; ser_lock := ser_lock w;
     ser_thread := ser_thread w; env := env w; trace := trace w |}.

Definition set_sock_lock (b : bool) (w : world) : world :=
  {| sock_alive := sock_alive w; sock_socket := sock_socket w;
     sock_serial_manager := sock_serial_manager w; sock_lock := b;
     sock_thread := sock_thread w; ser_alive := ser_alive w;
     ser_serial := ser_serial w; ser_serial_port := ser_serial_port w;
     ser_socket_manager := ser_socket_manager w; ser_lock := ser_lock w;
     ser_thread := ser_thread w; env := env w; trace := trace w |}.

Definition set_sock_thread (t : thread_state) (w : world) : world :=
  {| sock_alive := sock_alive w; sock_socket := sock_socket w;
     sock_serial_manager := sock_serial_manager w; sock_lock := sock_lock w;
     sock_thread := t; ser_alive := ser_alive w;
     ser_serial := ser_serial w; ser_serial_port := ser_serial_port w;
     ser_socket_manager := ser_socket_manager w; ser_lock := ser_lock w;
     ser_thread := ser_thread w; env := env w; trace := trace w |}.

Definition set_ser_alive (b : bool) (w : world) : world :=
  {| sock_alive := sock_alive w; sock_socket := sock_socket w;
     sock_serial_manager := sock_serial_manager w; sock_lock := sock_lock w;
     sock_thread := sock_thread w; ser_alive := b;
     ser_serial := ser_serial w; ser_serial_port := ser_serial_port w;
     ser_socket_manager := ser_socket_manager w; ser_lock := ser_lock w;
     ser_thread := ser_thread w; env := env w; trace := trace w |}.

Definition set_ser_serial (s : serial_obj) (w : world) : world :=
  {| sock_alive := sock_alive w; sock_socket := sock_socket w;
     sock_serial_manager := sock_serial_manager w; sock_lock := sock_lock w;
     sock_thread := sock_thread w; ser_alive := ser_alive w;
     ser_serial := s; ser_serial_port := ser_serial_port w;
     ser_socket_manager := ser_socket_manager w; ser_lock := ser_lock w;
     ser_thread := ser_thread w; env := env w; trace := trace w |}.

Definition set_ser_socket_manager (b : bool) (w : world) : world :=
  {| sock_alive := sock_alive w; sock_socket := sock_socket w;
     sock_serial_manager := sock_serial_manager w; sock_lock := sock_lock w;
     sock_thread := sock_thread w; ser_alive := ser_alive w;
     ser_serial := ser_serial w; ser_serial_port := ser_serial_port w;
     ser_socket_manager := b; ser_lock := ser_lock w;
     ser_thread := ser_thread w; env := env w; trace := trace w |}.

Definition set_ser_lock (b : bool) (w : world) : world :=
  {| sock_alive := sock_alive w; sock_socket := sock_socket w;
     sock_serial_manager := sock_serial_manager w; sock_lock := sock_lock w;
     sock_thread := sock_thread w; ser_alive := ser_alive w;
     ser_serial := ser_serial w; ser_serial_port := ser_serial_port w;
     ser_socket_manager := ser_socket_manager w; ser_lock := b;
     ser_thread := ser_thread w; env := env w; trace := trace w |}.

Definition set_ser_thread (t : thread_state) (w : world) : world :=
  {| sock_alive := sock_alive w; sock_socket := sock_socket w;
     sock_serial_manager := sock_serial_manager w; sock_lock := sock_lock w;
     sock_thread := sock_thread w; ser_alive := ser_alive w;
     ser_serial := ser_serial w; ser_serial_port := ser_serial_port w;
     ser_socket_manager := ser_socket_manager w; ser_lock := ser_lock w;
     ser_thread := t; env := env w; trace := trace w |}.

Definition set_env (e : environment) (w : world) : world :=
  {| sock_alive := sock_alive w; sock_socket := sock_socket w;
     sock_serial_manager := sock_serial_manager w; sock_lock := sock_lock w;
     sock_thread := sock_thread w; ser_alive := ser_alive w;
     ser_serial := ser_serial w; ser_serial_port := ser_serial_port w;
     ser_socket_manager := ser_socket_manager w; ser_lock := ser_lock w;
     ser_thread := ser_thread w; env := e; trace := trace w |}.

Definition set_trace (t : list event) (w : world) : world :=
  {| sock_alive := sock_alive w; sock_socket := sock_socket w;
     sock_serial_manager := sock_serial_manager w; sock_lock := sock_lock w;
     sock_thread := sock_thread w; ser_alive := ser_alive w;
     ser_serial := ser_serial w; ser_serial_port := ser_serial_port w;
     ser_socket_manager := ser_socket_manager w; ser_lock := ser_lock w;
     ser_thread := ser_thread w; env := env w; trace := t |}.

Definition set_recv_q (q : list (res bytes)) (e : environment) : environment :=
  {| recv_q := q; send_q := send_q e; connect_q := connect_q e;
     read_q := read_q e; swrite_q := swrite_q e; open_q := open_q e;
     scan_q := scan_q e |}.
Definition set_send_q (q : list (res Z)) (e : environment) : environment :=
  {| recv_q := recv_q e; send_q := q; connect_q := connect_q e;
     read_q := read_q e; swrite_q := swrite_q e; open_q := open_q e;
     scan_q := scan_q e |}.
Definition set_connect_q (q : list (res unit)) (e : environment) : environment :=
  {| recv_q := recv_q e; send_q := send_q e; connect_q := q;
     read_q := read_q e; swrite_q := swrite_q e; open_q := open_q e;
     scan_q := scan_q e |}.
Definition set_read_q (q : list (res bytes)) (e : environment) : environment :=
  {| recv_q := recv_q e; send_q := send_q e; connect_q := connect_q e;
     read_q := q; swrite_q := swrite_q e; open_q := open_q e;
     scan_q := scan_q e |}.
Definition set_swrite_q (q : list (res Z)) (e : environment) : environment :=
  {| recv_q := recv_q e; send_q := send_q e; connect_q := connect_q e;
     read_q := read_q e; swrite_q := q; open_q := open_q e;
     scan_q := scan_q e |}.
Definition set_open_q (q : list (res unit)) (e : environment) : environment :=
  {| recv_q := recv_q e; send_q := send_q e; connect_q := connect_q e;
     read_q := read_q e; swrite_q := swrite_q e; open_q := q;
     scan_q := scan_q e |}.
Definition set_scan_q (q : list (list port)) (e : environment) : environment :=
  {| recv_q := recv_q e; send_q := send_q e; connect_q := connect_q e;
     read_q := read_q e; swrite_q := swrite_q e; open_q := open_q e;
     scan_q := q |}.

(* ================================================================== *)
(** ** Computations *)
(* ================================================================== *)

(** A Python call: it changes the world and ends as a [res].  What was
    done before an exception stays done. *)
Definition M (A : Type) : Type := world -> res A * world.

Definition ret {A} (a : A) : M A := fun w => (Ok a, w).

Definition bind {A B} (c : M A) (k : A -> M B) : M B := fun w =>
  match c w with
  | (Ok a, w1) => k a w1
  | (Raise e, w1) => (Raise e, w1)
  | (Hang, w1) => (Hang, w1)
  end.

Definition raise {A} (e : exn) : M A := fun w => (Raise e, w).

(** [try: c  except Exception as e: h e] *)
Definition try_except {A} (c : M A) (h : exn -> M A) : M A := fun w =>
  match c w with
  | (Raise e, w1) => h e w1
  | r => r
  end.

Declare Scope py_scope.
Delimit Scope py_scope with py.
Notation "x <- c ;; k" := (bind c (fun x => k))
  (at level 61, c at next level, right associativity) : py_scope.
Notation "c ;; k" := (bind c (fun _ => k))
  (at level 61, right associativity) : py_scope.
Open Scope py_scope.

Definition emit (e : event) : M unit := fun w =>
  (Ok tt, set_trace (trace w ++ [e]) w).

Definition get {A} (f : world -> A) : M A := fun w => (Ok (f w), w).
Definition modify (f : world -> world) : M unit := fun w => (Ok tt, f w).

(** The next answer of a queue; [dflt] is what an exhausted queue
    answers. *)
Definition answer {A} (q : environment -> list (res A))
    (upd : list (res A) -> environment -> environment) (dflt : res A) : M A :=
  fun w =>
    match q (env w) with
    | [] => (dflt, w)
    | r :: rest => (r, set_env (upd rest (env w)) w)
    end.

(** [with lock: body] *)
Definition with_lock {A} (l : lock_id) (body : M A) : M A := fun w =>
  let held := match l with SocketLock => sock_lock w | SerialLock => ser_lock w end in
  let set b := match l with SocketLock => set_sock_lock b | SerialLock => set_ser_lock b end in
  if held then (Hang, w)
  else
    match body (set_trace (trace w ++ [Acquire l]) (set true w)) with
    | (Hang, w1) => (Hang, w1)
    | (r, w1) => (r, set_trace (trace w1 ++ [Release l]) (set false w1))
    end.

Definition thread_state_of (t : thread_id) (w : world) : thread_state :=
  match t with
  | MainThread => Running
  | SocketT => sock_thread w
  | SerialT => ser_thread w
  end.

(** [target.join(timeout)] called by the thread [caller].  CPython
    raises [RuntimeError] when the target was never started and when a
    thread joins itself; otherwise the call waits for the target to end,
    at most [timeout] when one is given. *)
Definition Thread_join (caller target : thread_id) (timeout : option Z)
  : M unit := fun w =>
  match thread_state_of target w with
  | Unstarted => (Raise RuntimeError, w)
  | st =>
    if thread_id_eqb caller target then (Raise RuntimeError, w)
    else
      let w1 := set_trace (trace w ++ [Join target timeout]) w in
      match st, timeout with
      | Running, None => (Hang, w1)
      | _, _ => (Ok tt, w1)
      end
  end.

(* ================================================================== *)
(** ** The media *)
(* ================================================================== *)

Definition fresh_socket : socket_obj :=
  {| so_timeout := None; so_connected := false; so_closed := false |}.

(** [self.socket = socket.socket(socket.AF_INET, socket.SOCK_STREAM)] *)
Definition socket_create : M unit :=
  emit SockCreate ;; modify (set_sock_socket (Some fresh_socket)).

(** Attribute access on [self.socket]: [None] has no attributes. *)
Definition the_socket : M socket_obj := fun w =>
  match sock_socket w with
  | Some so => (Ok so, w)
  | None => (Raise AttributeError, w)
  end.

Definition socket_usable (so : socket_obj) : bool :=
  so_connected so && negb (so_closed so).

(** [self.socket.settimeout(t)] *)
Definition socket_settimeout (t : Q) : M unit :=
  so <- the_socket ;;
  emit (SockSetTimeout t) ;;
  modify (set_sock_socket
            (Some {| so_timeout := Some t; so_connected := so_connected so;
                     so_closed := so_closed so |})).

(** [self.socket.connect((host, port))] *)
Definition socket_connect (host : string) (p : Z) : M unit :=
  so <- the_socket ;;
  emit (SockConnect host p) ;;
  answer connect_q set_connect_q (Ok tt) ;;
  modify (set_sock_socket
            (Some {| so_timeout := so_timeout so; so_connected := true;
                     so_closed := so_closed so |})).

(** [self.socket.recv(bufsize)]: the call waits as long as the timeout of
    the socket object says.  A socket that is closed or not connected
    fails at once. *)
Definition socket_recv (bufsize : Z) : M bytes :=
  so <- the_socket ;;
  emit (SockRecv bufsize (so_timeout so)) ;;
  if socket_usable so then answer recv_q set_recv_q Hang
  else raise OSError.

(** [self.socket.send(data)] *)
Definition socket_send (data : bytes) : M Z :=
  so <- the_socket ;;
  emit (SockSend data) ;;
  if socket_usable so
  then answer send_q set_send_q (Ok (Z.of_nat (List.length data)))
  else raise OSError.

(** [self.socket.close()] *)
Definition socket_close : M unit :=
  so <- the_socket ;;
  emit SockClose ;;
  modify (set_sock_socket
            (Some {| so_timeout := so_timeout so;
                     so_connected := so_connected so; so_closed := true |})).

(** [serial.Serial(dev, baudrate=9600, timeout=3)] *)
Definition serial_Serial (dev : string) : M serial_obj :=
  emit (SerialOpen dev 9600 3) ;;
  answer open_q set_open_q (Ok tt) ;;
  ret {| sp_device := dev; sp_is_open := true |}.

(** [self.serial.read(self.serial.in_waiting)]; pyserial refuses a port
    that is not open. *)
Definition serial_read : M bytes :=
  s <- get ser_serial ;;
  emit SerialRead ;;
  if sp_is_open s then answer read_q set_read_q Hang
  else raise SerialException.

(** [self.serial.write(data)]; pyserial refuses a port that is not
    open. *)
Definition serial_write (data : bytes) : M Z :=
  s <- get ser_serial ;;
  emit (SerialWrite data) ;;
  if sp_is_open s
  then answer swrite_q set_swrite_q (Ok (Z.of_nat (List.length data)))
  else raise SerialException.

(** [bytes.decode()] and [str.encode()] as calls. *)
Definition decode (data : bytes) : M str :=
  match utf8_decode data with
  | Some s => ret s
  | None => raise UnicodeDecodeError
  end.

Definition encode (s : str) : M bytes :=
  match utf8_encode s with
  | Some b => ret b
  | None => raise UnicodeEncodeError
  end.

(** The control frames, as the bytes the source builds with
    ["...".encode()]. *)
Definition bridgeConnected : bytes := lit_bytes "bridgeConnected" ++ [x00].
Definition internetDisconnected : bytes := lit_bytes "internetDisconnected".
Definition DISCONNECT : str := lit "DISCONNECT".

(* ================================================================== *)
(** ** find_serial_port *)
(* ================================================================== *)

Definition is_calculator (p : port) : bool :=
  ascii_contains "USB Serial Device" (description p)
  || ascii_contains "TI-84" (description p).

(** The [while True] of [find_serial_port], driven by the scans the
    environment still holds: sleep, list the ports, return the first one
    whose description matches.  With no scan left the function is still
    waiting. *)
Fixpoint find_serial_port_from (scans : list (list port)) (tr : list event)
  : option port * list (list port) * list event :=
  match scans with
  | [] => (None, [], tr ++ [Sleep 1])
  | ports :: rest =>
    match find is_calculator ports with
    | Some p => (Some p, rest, tr ++ [Sleep 1; Comports])
    | None => find_serial_port_from rest (tr ++ [Sleep 1; Comports])
    end
  end.

Definition find_serial_port : M port := fun w =>
  match find_serial_port_from (scan_q (env w)) (trace w) with
  | (r, rest, tr) =>
    let w1 := set_trace tr (set_env (set_scan_q rest (env w)) w) in
    match r with
    | Some p => (Ok p, w1)
    | None => (Hang, w1)
    end
  end.

(* ================================================================== *)
(** ** write, on both channels *)
(* ================================================================== *)

(** [SocketThread.write] *)
Definition SocketThread_write (data : bytes) : M Z :=
  with_lock SocketLock (socket_send data).

(** [SerialThread.write] *)
Definition SerialThread_write (data : bytes) : M Z :=
  with_lock SerialLock (serial_write data).

(** [self.serial_manager.alive], read by the socket thread. *)
Definition serial_manager_alive : M bool := fun w =>
  if sock_serial_manager w then (Ok (ser_alive w), w)
  else (Raise AttributeError, w).

(** [self.serial_manager.write(data)] *)
Definition serial_manager_write (data : bytes) : M Z := fun w =>
  if sock_serial_manager w then SerialThread_write data w
  else (Raise AttributeError, w).

(** [self.socket_manager.write(data)], called by the serial thread. *)
Definition socket_manager_write (data : bytes) : M Z := fun w =>
  if ser_socket_manager w then SocketThread_write data w
  else (Raise AttributeError, w).

(* ================================================================== *)
(** ** SocketThread *)
(* ================================================================== *)

(** [SocketThread.__init__] *)
Definition SocketThread_init : M unit :=
  modify (set_sock_thread Unstarted) ;;
  modify (set_sock_alive false) ;;
  modify (set_sock_socket None) ;;
  modify (set_sock_serial_manager false) ;;
  modify (set_sock_lock false).

(** [SocketThread.stop], called by the thread [caller]. *)
Definition SocketThread_stop (caller : thread_id) : M unit :=
  modify (set_sock_alive false) ;;
  peer_alive <- serial_manager_alive ;;
  (if peer_alive
   then serial_manager_write internetDisconnected ;; ret tt
   else ret tt) ;;
  socket_close ;;
  Thread_join caller SocketT None.

(** One turn of the [while self.alive] loop of [SocketThread.run].  The
    loop runs in the socket thread, which is therefore the caller of
    [self.stop()]. *)
Definition SocketThread_run_body : M unit :=
  r <- try_except
         (server_response <- socket_recv 4096 ;; ret (Some server_response))
         (fun e =>
            match e with
            | SocketTimeout => ret None                 (* continue *)
            | _ => SocketThread_stop SocketT ;; ret (Some [])
            end) ;;
  match r with
  | None => ret tt
  | Some server_response =>
    (if bytes_eqb server_response []
     then emit (LogError server_response) ;; SocketThread_stop SocketT
     else ret tt) ;;
    decoded_server_response <- decode server_response ;;
    emit (LogDebug decoded_server_response) ;;
    peer_alive <- serial_manager_alive ;;
    (if peer_alive
     then data <- encode decoded_server_response ;;
          serial_manager_write data ;; ret tt
     else ret tt) ;;
    if str_eqb decoded_server_response DISCONNECT
    then modify (set_sock_alive false)
    else ret tt
  end.

(** [while self.alive: ...] *)
Fixpoint SocketThread_loop (fuel : nat) : M unit := fun w =>
  if sock_alive w then
    match fuel with
    | O => (Hang, w)
    | S n =>
      match SocketThread_run_body w with
      | (Ok _, w1) => SocketThread_loop n w1
      | r => r
      end
    end
  else (Ok tt, w).

(** [while self.serial_manager is None: pass] *)
Definition startup_barrier : M unit := fun w =>
  if sock_serial_manager w then (Ok tt, w) else (Hang, w).

(** The part of [SocketThread.run] between the barrier and the loop. *)
Definition SocketThread_connect (cfg : config) : M unit :=
  socket_create ;;
  socket_settimeout 10 ;;
  socket_connect (SERVER_ADDRESS cfg) (SERVER_PORT cfg) ;;
  modify (set_sock_alive true) ;;
  serial_manager_write bridgeConnected ;;
  ret tt.

(** [SocketThread.run] *)
Definition SocketThread_run (cfg : config) (fuel : nat) : M unit :=
  startup_barrier ;;
  SocketThread_connect cfg ;;
  SocketThread_loop fuel.

(* ================================================================== *)
(** ** SerialThread *)
(* ================================================================== *)

(** The assignment to [self.serial], as [__init__] and the reconnect
    loop both write it. *)
Definition open_serial (cfg : config) : M unit :=
  s <- (if MANUAL_PORT cfg
        then dev <- get ser_serial_port ;; serial_Serial dev
        else p <- find_serial_port ;; serial_Serial (device p)) ;;
  modify (set_ser_serial s).

(** [SerialThread.__init__(serial_port)] *)
Definition SerialThread_init (cfg : config) (serial_port : string) : M unit :=
  modify (set_ser_thread Unstarted) ;;
  modify (fun w =>
    {| sock_alive := sock_alive w; sock_socket := sock_socket w;
       sock_serial_manager := sock_serial_manager w; sock_lock := sock_lock w;
       sock_thread := sock_thread w; ser_alive := ser_alive w;
       ser_serial := ser_serial w; ser_serial_port := serial_port;
       ser_socket_manager := ser_socket_manager w; ser_lock := ser_lock w;
       ser_thread := ser_thread w; env := env w; trace := trace w |}) ;;
  open_serial cfg ;;
  modify (set_ser_socket_manager false) ;;
  modify (set_ser_alive true) ;;
  modify (set_ser_lock false).

(** [SerialThread.stop], called by the thread [caller].  pyserial's
    [Serial] has [cancel_read], so the [hasattr] test holds. *)
Definition SerialThread_stop (caller : thread_id) : M unit :=
  modify (set_ser_alive false) ;;
  emit SerialCancelRead ;;
  Thread_join caller SerialT (Some 2).

(** The [while True] retry loop of the [except] branch. *)
Fixpoint SerialThread_reconnect (cfg : config) (fuel : nat) : M unit :=
  match fuel with
  | O => fun w => (Hang, w)
  | S n =>
    emit (Sleep 1) ;;
    again <- try_except
               (open_serial cfg ;;
                SerialThread_write bridgeConnected ;;
                ret false)                              (* break *)
               (fun _ => ret true) ;;                   (* pass *)
    if again then SerialThread_reconnect cfg n else ret tt
  end.

(** [.replace("/0", "").replace("\0", "")] *)
Definition strip_delimiter (s : str) : str :=
  str_replace [0] [] (str_replace (lit "/0") [] s).

(** What the [else] branch of the read does with [data]. *)
Definition SerialThread_on_data (data : bytes) : M unit :=
  if truthy data then
    (if bytes_eqb data []
     then emit (LogErrorMsg "Data issue")
     else ret tt) ;;
    s <- decode data ;;
    let decoded_data := strip_delimiter s in
    emit (LogDebug decoded_data) ;;
    out <- encode decoded_data ;;
    socket_manager_write out ;;
    ret tt
  else ret tt.

(** One turn of the reader loop of [SerialThread.run]. *)
Definition SerialThread_run_body (cfg : config) (fuel : nat) : M unit :=
  r <- try_except
         (data <- serial_read ;; ret (Some data))
         (fun _ =>
            (if ENABLE_RECONNECT cfg
             then SerialThread_reconnect cfg fuel
             else modify (set_ser_alive false)) ;;
            ret None) ;;
  match r with
  | None => ret tt
  | Some data => SerialThread_on_data data
  end.

(** [while self.alive and self.serial.is_open: ...] *)
Fixpoint SerialThread_loop (cfg : config) (fuel : nat) : M unit := fun w =>
  if ser_alive w && sp_is_open (ser_serial w) then
    match fuel with
    | O => (Hang, w)
    | S n =>
      match SerialThread_run_body cfg n w with
      | (Ok _, w1) => SerialThread_loop cfg n w1
      | r => r
      end
    end
  else (Ok tt, w).

(** [SerialThread.run] *)
Definition SerialThread_run (cfg : config) (fuel : nat) : M unit :=
  SerialThread_loop cfg fuel ;;
  modify (set_ser_alive false).

(* ================================================================== *)
(** ** main: wiring and start of the two threads *)
(* ================================================================== *)

(** The three threads of control of the [SERIAL] branch of [main], from
    line 323 on, interleaved by a scheduler.  A program counter names the
    source line its thread executes next; one step runs that statement
    (for the two loops: one turn).  A step that cannot complete yet (a
    busy wait, a join on a running thread, an environment with no answer)
    is not taken. *)
Inductive main_pc :=
| L323        (* socket_thread = SocketThread() *)
| L324        (* serial_thread = SerialThread(selected_port.device) *)
| L325        (* socket_thread.serial_manager = serial_thread *)
| L326        (* serial_thread.socket_manager = socket_thread *)
| L328        (* serial_thread.start() *)
| L329        (* socket_thread.start() *)
| L331        (* serial_thread.join() *)
| L332        (* socket_thread.join() *)
| L334        (* sys.exit(0) *)
| MainDone (r : res unit).

Inductive sock_pc :=
| S72         (* while self.serial_manager is None: pass *)
| S75         (* socket.socket(...); settimeout(10) *)
| S82         (* self.socket.connect(...) *)
| S83         (* self.alive = True *)
| S85         (* self.serial_manager.write("bridgeConnected\0".encode()) *)
| S88         (* while self.alive: ... *)
| SockDone (r : res unit).

Inductive ser_pc :=
| R154        (* while self.alive and self.serial.is_open: ... *)
| SerDone (r : res unit).

Record system := {
  sys_world : world;
  pc_main : main_pc;
  pc_sock : sock_pc;
  pc_ser : ser_pc
}.

Definition main_step (cfg : config) (selected_port : port) (s : system)
  : system :=
  let w := sys_world s in
  let go (c : M unit) (next : main_pc) :=
    match c w with
    | (Ok _, w1) =>
      {| sys_world := w1; pc_main := next; pc_sock := pc_sock s;
         pc_ser := pc_ser s |}
    | (Raise e, w1) =>
      {| sys_world := w1; pc_main := MainDone (Raise e); pc_sock := pc_sock s;
         pc_ser := pc_ser s |}
    | (Hang, _) => s
    end in
  match pc_main s with
  | L323 => go SocketThread_init L324
  | L324 => go (SerialThread_init cfg (device selected_port)) L325
  | L325 => go (modify (set_sock_serial_manager true)) L326
  | L326 => go (modify (set_ser_socket_manager true)) L328
  | L328 => go (modify (set_ser_thread Running)) L329
  | L329 => go (modify (set_sock_thread Running)) L331
  | L331 => go (Thread_join MainThread SerialT None) L332
  | L332 => go (Thread_join MainThread SocketT None) L334
  | L334 => go (ret tt) (MainDone (Ok tt))
  | MainDone _ => s
  end.

Definition sock_step (cfg : config) (s : system) : system :=
  let w := sys_world s in
  let finish (r : res unit) (w1 : world) :=
    {| sys_world := set_sock_thread Finished w1; pc_main := pc_main s;
       pc_sock := SockDone r; pc_ser := pc_ser s |} in
  let go (c : M unit) (next : sock_pc) :=
    match c w with
    | (Ok _, w1) =>
      {| sys_world := w1; pc_main := pc_main s; pc_sock := next;
         pc_ser := pc_ser s |}
    | (Raise e, w1) => finish (Raise e) w1
    | (Hang, _) => s
    end in
  match sock_thread w with
  | Running =>
    match pc_sock s with
    | S72 => go startup_barrier S75
    | S75 => go (socket_create ;; socket_settimeout 10) S82
    | S82 => go (socket_connect (SERVER_ADDRESS cfg) (SERVER_PORT cfg)) S83
    | S83 => go (modify (set_sock_alive true)) S85
    | S85 => go (serial_manager_write bridgeConnected ;; ret tt) S88
    | S88 => if sock_alive w then go SocketThread_run_body S88
             else finish (Ok tt) w
    | SockDone _ => s
    end
  | _ => s
  end.

Definition ser_step (cfg : config) (fuel : nat) (s : system) : system :=
  let w := sys_world s in
  let finish (r : res unit) (w1 : world) :=
    {| sys_world := set_ser_thread Finished w1; pc_main := pc_main s;
       pc_sock := pc_sock s; pc_ser := SerDone r |} in
  match ser_thread w with
  | Running =>
    match pc_ser s with
    | R154 =>
      if ser_alive w && sp_is_open (ser_serial w) then
        match SerialThread_run_body cfg fuel w with
        | (Ok _, w1) =>
          {| sys_world := w1; pc_main := pc_main s; pc_sock := pc_sock s;
             pc_ser := R154 |}
        | (Raise e, w1) => finish (Raise e) w1
        | (Hang, _) => s
        end
      else finish (Ok tt) (set_ser_alive false w)
    | SerDone _ => s
    end
  | _ => s
  end.

(** One step of the thread the scheduler picks. *)
Definition step (cfg : config) (selected_port : port) (fuel : nat)
    (t : thread_id) (s : system) : system :=
  match t with
  | MainThread => main_step cfg selected_port s
  | SocketT => sock_step cfg s
  | SerialT => ser_step cfg fuel s
  end.

(** An interleaving is the list of the scheduler's picks. *)
Definition exec (cfg : config) (selected_port : port) (fuel : nat)
    (schedule : list thread_id) (s : system) : system :=
  fold_left (fun s t => step cfg selected_port fuel t s) schedule s.

(** The process at line 323: no object exists yet. *)
Definition boot (e : environment) : system :=
  {| sys_world :=
       {| sock_alive := false; sock_socket := None;
          sock_serial_manager := false; sock_lock := false;
          sock_thread := Unstarted; ser_alive := false;
          ser_serial := {| sp_device := ""; sp_is_open := false |};
          ser_serial_port := ""; ser_socket_manager := false;
          ser_lock := false; ser_thread := Unstarted;
          env := e; trace := [] |};
     pc_main := L323; pc_sock := S72; pc_ser := R154 |}.

(* ================================================================== *)
(** ** Observations on traces *)
(* ================================================================== *)

(** The data of the calls to [serial.write], oldest first. *)
Fixpoint serial_writes (tr : list event) : list bytes :=
  match tr with
  | [] => []
  | SerialWrite d :: t => d :: serial_writes t
  | _ :: t => serial_writes t
  end.

(** The data of the calls to [socket.send], oldest first. *)
Fixpoint socket_sends (tr : list event) : list bytes :=
  match tr with
  | [] => []
  | SockSend d :: t => d :: socket_sends t
  | _ :: t => socket_sends t
  end.

(** The timeouts under which [socket.recv] was called, oldest first. *)
Fixpoint recv_timeouts (tr : list event) : list (option Q) :=
  match tr with
  | [] => []
  | SockRecv _ t :: r => t :: recv_timeouts r
  | _ :: r => recv_timeouts r
  end.


(** The answer a queue gives next. *)
Definition next_answer {A} (q : list (res A)) (dflt : res A) : res A :=
  match q with
  | [] => dflt
  | r :: _ => r
  end.

(** The medium takes the next write. *)
Definition accepts (q : list (res Z)) : bool :=
  match q with
  | [] => true
  | Ok _ :: _ => true
  | _ => false
  end.

(** How many times the socket was closed. *)
Fixpoint closes (tr : list event) : nat :=
  match tr with
  | [] => O
  | SockClose :: t => S (closes t)
  | _ :: t => closes t
  end.


(** A call keeps an invariant of the world, however it ends. *)
Definition preserves (I : world -> Prop) {A} (c : M A) : Prop :=
  forall w, I w -> I (snd (c w)).

(** Every event but a poll of the socket. *)
Definition harmless (e : event) : Prop :=
  match e with
  | SockRecv _ _ => False
  | _ => True
  end.

(** Every poll in the trace waited at most [t]. *)
Definition polls_at (t : Q) (tr : list event) : Prop :=
  Forall (fun x => x = Some t) (recv_timeouts tr).

(** The socket object, once there, has timeout [t], and so had every
    poll so far. *)
Definition poll_invariant (t : Q) (w : world) : Prop :=
  polls_at t (trace w)
  /\ match sock_socket w with
     | Some so => so_timeout so = Some t
     | None => True
     end.

(** Both peer references are set. *)
Definition wired (w : world) : Prop :=
  sock_serial_manager w = true /\ ser_socket_manager w = true.

(** The attributes that no call of either channel assigns: the two
    thread states and the two peer references. *)
Definition static (w : world)
  : thread_state * thread_state * bool * bool :=
  (sock_thread w, ser_thread w, sock_serial_manager w, ser_socket_manager w).

(** No thread started and nothing written to the serial port yet. *)
Definition quiet (w : world) : Prop :=
  sock_thread w = Unstarted /\ ser_thread w = Unstarted
  /\ serial_writes (trace w) = [].

(** What holds at each line of [main] while the three threads run. *)
Definition startup_invariant (s : system) : Prop :=
  let w := sys_world s in
  match pc_main s with
  | L323 | L324 | L325 => quiet w /\ pc_sock s = S72
  | L326 => quiet w /\ pc_sock s = S72 /\ sock_serial_manager w = true
  | L328 => quiet w /\ pc_sock s = S72 /\ wired w
  | L329 => sock_thread w = Unstarted /\ pc_sock s = S72 /\ wired w
  | L331 | L332 | L334 => wired w
  | MainDone _ => (quiet w /\ pc_sock s = S72) \/ wired w
  end.

(** What a call added to the trace. *)
Definition added (w w1 : world) : list event :=
  skipn (List.length (trace w)) (trace w1).

(** A quiet environment: nothing is queued. *)
Definition no_answers : environment :=
  {| recv_q := []; send_q := []; connect_q := []; read_q := [];
     swrite_q := []; open_q := []; scan_q := [] |}.

(** Both channels up: threads running, TCP connected with the timeout
    that [run] installs, port open, both peer references set. *)
Definition relaying (e : environment) : world :=
  {| sock_alive := true;
     sock_socket := Some {| so_timeout := Some 10%Q; so_connected := true;
                            so_closed := false |};
     sock_serial_manager := true; sock_lock := false;
     sock_thread := Running; ser_alive := true;
     ser_serial := {| sp_device := "COM3"; sp_is_open := true |};
     ser_serial_port := "COM3"; ser_socket_manager := true;
     ser_lock := false; ser_thread := Running;
     env := e; trace := [] |}.

(** Both threads started and wired, the TCP socket not created yet. *)
Definition started (e : environment) : world :=
  set_sock_socket None (set_sock_alive false (relaying e)).

(* ================================================================== *)
(** ** Sessions *)
(* ================================================================== *)

(** What [socket.recv] answers along a session: data, or a timeout. *)
Definition polled (o : option bytes) : res bytes :=
  match o with
  | Some d => Ok d
  | None => Raise SocketTimeout
  end.

(** The data of a session, without the timeouts. *)
Definition payloads (script : list (option bytes)) : list bytes :=
  flat_map (fun o => match o with Some d => [d] | None => [] end) script.

(** Data from the server that is a payload: not empty, valid UTF-8, not
    the [DISCONNECT] frame. *)
Definition relayable (d : bytes) : Prop :=
  d <> [] /\ exists s, utf8_decode d = Some s /\ str_eqb s DISCONNECT = false.

(** Data from the calculator that holds no delimiter, in either form,
    and is valid UTF-8. *)
Definition clean (P : bytes) : Prop :=
  ~ In x00 P
  /\ contains Byte.eqb (lit_bytes "/0") P = false
  /\ exists s, utf8_decode P = Some s.

(** The socket loop can relay to the serial port: the channel is alive
    on a connected socket, the serial peer is wired, alive, open and not
    being written to, and the port takes every write. *)
Definition socket_relaying (so : socket_obj) (w : world) : Prop :=
  sock_alive w = true /\ sock_socket w = Some so /\ socket_usable so = true
  /\ sock_serial_manager w = true /\ ser_alive w = true
  /\ ser_lock w = false /\ sp_is_open (ser_serial w) = true
  /\ swrite_q (env w) = [].

(** The serial loop can relay to the socket, likewise. *)
Definition serial_relaying (so : socket_obj) (w : world) : Prop :=
  ser_alive w = true /\ sp_is_open (ser_serial w) = true
  /\ ser_socket_manager w = true /\ sock_lock w = false
  /\ sock_socket w = Some so /\ socket_usable so = true
  /\ send_q (env w) = [].

(** Where the two threads are in their life at each line of [main]. *)
Definition lifecycle (s : system) : Prop :=
  let w := sys_world s in
  match pc_main s with
  | L323 | L324 | L325 | L326 | L328 =>
    sock_thread w = Unstarted /\ ser_thread w = Unstarted
  | L329 => sock_thread w = Unstarted /\ ser_thread w <> Unstarted
  | L331 => sock_thread w <> Unstarted /\ ser_thread w <> Unstarted
  | L332 => sock_thread w <> Unstarted /\ ser_thread w = Finished
  | L334 | MainDone (Ok _) =>
    sock_thread w = Finished /\ ser_thread w = Finished
  | MainDone (Raise _) =>
    sock_thread w = Unstarted /\ ser_thread w = Unstarted
  | MainDone Hang => False
  end.

(* ================================================================== *)
(** * Properties *)
(* ================================================================== *)

(* ================================================================== *)
(** ** Facts on the codec *)
(* ================================================================== *)

Lemma byte_val_range (b : byte) : 0 <= byte_val b <= 255.
Proof.
  unfold byte_val. pose proof (Byte.to_N_bounded b). lia.
Qed.

Lemma byte_of_Z_val (b : byte) : byte_of_Z (byte_val b) = b.
Proof.
  unfold byte_of_Z, byte_val. rewrite N2Z.id, Byte.of_to_N. reflexivity.
Qed.

Lemma is_cont_range (b : byte) :
  is_cont b = true -> 128 <= byte_val b <= 191.
Proof. unfold is_cont. lia. Qed.

Lemma utf8_decode_decodes_len (n : nat) :
  forall bs s, (List.length bs <= n)%nat ->
               utf8_decode bs = Some s -> decodes bs s.
Proof.
  induction n as [|n IH]; intros bs s Hlen Hd.
  - destruct bs; [|simpl in Hlen; lia].
    simpl in Hd. injection Hd as <-. constructor.
  - destruct bs as [|b0 r0]; [simpl in Hd; injection Hd as <-; constructor|].
    simpl in Hlen. cbn [utf8_decode] in Hd.
    destruct (Z.ltb_spec (byte_val b0) 128) as [H1|H1].
    { destruct (utf8_decode r0) as [s0|] eqn:E; [|discriminate].
      injection Hd as <-. constructor; [assumption|].
      apply IH; [lia|assumption]. }
    destruct (Z.ltb_spec (byte_val b0) 194) as [H2|H2]; [discriminate|].
    destruct (Z.ltb_spec (byte_val b0) 224) as [H3|H3].
    { destruct r0 as [|b1 r1]; [discriminate|].
      destruct (is_cont b1) eqn:C1; [|discriminate].
      destruct (utf8_decode r1) as [s0|] eqn:E; [|discriminate].
      injection Hd as <-. simpl in Hlen.
      constructor; [lia|assumption|]. apply IH; [lia|assumption]. }
    destruct (Z.ltb_spec (byte_val b0) 240) as [H4|H4].
    { destruct r0 as [|b1 [|b2 r2]]; try discriminate.
      destruct (is_cont b1) eqn:C1; [|discriminate].
      destruct (is_cont b2) eqn:C2; [|discriminate].
      cbn [andb] in Hd.
      match type of Hd with
      | context [2048 <=? ?c] =>
        destruct (Z.leb_spec 2048 c) as [H5|H5]; [|discriminate];
        destruct (is_surrogate c) eqn:Sg; [discriminate|]
      end.
      cbn [andb negb] in Hd.
      destruct (utf8_decode r2) as [s0|] eqn:E; [|discriminate].
      injection Hd as <-. simpl in Hlen.
      eapply dec_3; try eassumption; try reflexivity; [lia|].
      apply IH; [lia|assumption]. }
    destruct (Z.ltb_spec (byte_val b0) 245) as [H5|H5]; [|discriminate].
    destruct r0 as [|b1 [|b2 [|b3 r3]]]; try discriminate.
    destruct (is_cont b1) eqn:C1; [|discriminate].
    destruct (is_cont b2) eqn:C2; [|discriminate].
    destruct (is_cont b3) eqn:C3; [|discriminate].
    cbn [andb] in Hd.
    match type of Hd with
    | context [65536 <=? ?c] =>
      destruct (Z.leb_spec 65536 c) as [H6|H6]; [|discriminate];
      destruct (Z.leb_spec c 1114111) as [H7|H7]; [|discriminate]
    end.
    cbn [andb] in Hd.
    destruct (utf8_decode r3) as [s0|] eqn:E; [|discriminate].
    injection Hd as <-. simpl in Hlen.
    eapply dec_4; try eassumption; try reflexivity; [lia|lia|].
    apply IH; [lia|assumption].
Qed.

Lemma utf8_decode_decodes (bs : bytes) (s : str) :
  utf8_decode bs = Some s -> decodes bs s.
Proof. apply (utf8_decode_decodes_len (List.length bs)). lia. Qed.

Lemma byte_of_Z_eq (b : byte) (z : Z) : z = byte_val b -> byte_of_Z z = b.
Proof. intros ->. apply byte_of_Z_val. Qed.

(** Encoding what was decoded gives the bytes back. *)
Lemma decodes_encode (bs : bytes) (s : str) :
  decodes bs s -> utf8_encode s = Some bs.
Proof.
  induction 1 as
    [ | b0 r s H0 _ IH | b0 b1 r s H0 C1 _ IH
      | b0 b1 b2 r s c H0 C1 C2 Hc Hlo Hs _ IH
      | b0 b1 b2 b3 r s c H0 C1 C2 C3 Hc Hr _ IH ];
    [reflexivity| | | |]; cbn [utf8_encode]; rewrite IH.
  - pose proof (byte_val_range b0).
    unfold encode_cp.
    destruct (Z.ltb_spec (byte_val b0) 0); [lia|].
    destruct (Z.ltb_spec (byte_val b0) 128); [|lia].
    rewrite byte_of_Z_val. reflexivity.
  - apply is_cont_range in C1.
    set (c := (byte_val b0 - 192) * 64 + (byte_val b1 - 128)).
    assert (Hq : c / 64 = byte_val b0 - 192) by (subst c; Z.div_mod_to_equations; lia).
    assert (Hm : c mod 64 = byte_val b1 - 128) by (subst c; Z.div_mod_to_equations; lia).
    unfold encode_cp.
    destruct (Z.ltb_spec c 0); [subst c; lia|].
    destruct (Z.ltb_spec c 128); [subst c; lia|].
    destruct (Z.ltb_spec c 2048); [|subst c; lia].
    rewrite Hq, Hm.
    rewrite (byte_of_Z_eq b0), (byte_of_Z_eq b1) by lia. reflexivity.
  - apply is_cont_range in C1. apply is_cont_range in C2.
    assert (Hq : c / 4096 = byte_val b0 - 224) by (subst c; Z.div_mod_to_equations; lia).
    assert (Hq2 : (c / 64) mod 64 = byte_val b1 - 128) by (subst c; Z.div_mod_to_equations; lia).
    assert (Hm : c mod 64 = byte_val b2 - 128) by (subst c; Z.div_mod_to_equations; lia).
    unfold encode_cp.
    destruct (Z.ltb_spec c 0); [lia|].
    destruct (Z.ltb_spec c 128); [lia|].
    destruct (Z.ltb_spec c 2048); [lia|].
    destruct (Z.ltb_spec c 65536); [|subst c; lia].
    rewrite Hs, Hq, Hq2, Hm.
    rewrite (byte_of_Z_eq b0), (byte_of_Z_eq b1), (byte_of_Z_eq b2) by lia.
    reflexivity.
  - apply is_cont_range in C1. apply is_cont_range in C2.
    apply is_cont_range in C3.
    assert (Hq : c / 262144 = byte_val b0 - 240) by (subst c; Z.div_mod_to_equations; lia).
    assert (Hq1 : (c / 4096) mod 64 = byte_val b1 - 128) by (subst c; Z.div_mod_to_equations; lia).
    assert (Hq2 : (c / 64) mod 64 = byte_val b2 - 128) by (subst c; Z.div_mod_to_equations; lia).
    assert (Hm : c mod 64 = byte_val b3 - 128) by (subst c; Z.div_mod_to_equations; lia).
    unfold encode_cp.
    destruct (Z.ltb_spec c 0); [lia|].
    destruct (Z.ltb_spec c 128); [lia|].
    destruct (Z.ltb_spec c 2048); [lia|].
    destruct (Z.ltb_spec c 65536); [lia|].
    destruct (Z.leb_spec c 1114111); [|lia].
    rewrite Hq, Hq1, Hq2, Hm.
    rewrite (byte_of_Z_eq b0), (byte_of_Z_eq b1), (byte_of_Z_eq b2),
      (byte_of_Z_eq b3) by lia.
    reflexivity.
Qed.

Lemma utf8_roundtrip (bs : bytes) (s : str) :
  utf8_decode bs = Some s -> utf8_encode s = Some bs.
Proof. intros H. apply decodes_encode, utf8_decode_decodes, H. Qed.

Section ListFacts.
Context {A : Type} (eqb : A -> A -> bool).

Lemma contains_tail (p : list A) (a : A) (s : list A) :
    contains eqb p (a :: s) = false -> contains eqb p s = false.
  Proof. cbn [contains]. intros H. apply orb_false_iff in H. apply H. Qed.

Lemma contains_head (p : list A) (a : A) (s : list A) :
    contains eqb p (a :: s) = false -> starts_with eqb p (a :: s) = false.
  Proof. cbn [contains]. intros H. apply orb_false_iff in H. apply H. Qed.

  (** Replacing a pattern that does not occur changes nothing. *)
Lemma replace_from_absent (old new s : list A) :
    contains eqb old s = false -> replace_from eqb old new O s = s.
  Proof.
    induction s as [|c t IH]; intros H; [reflexivity|].
    cbn [replace_from].
    rewrite (contains_head _ _ _ H), (IH (contains_tail _ _ _ H)).
    reflexivity.
  Qed.
End ListFacts.

Lemma contains_single_absent (s : str) :
  ~ In 0 s -> contains Z.eqb [0] s = false.
Proof.
  induction s as [|c t IH]; intros H; [reflexivity|].
  cbn [contains starts_with]. rewrite IH by (intros ?; apply H; now right).
  destruct (Z.eqb_spec 0 c) as [E|_]; [exfalso; apply H; left; symmetry; exact E|].
  reflexivity.
Qed.

(** A code point below 128 comes from one byte, the byte of that value. *)
Lemma decodes_ascii_head (bs : bytes) (c : Z) (s : str) :
  decodes bs (c :: s) -> c < 128 ->
  exists b r, bs = b :: r /\ byte_val b = c /\ decodes r s.
Proof.
  intros H Hc. inversion H; subst.
  - eauto.
  - match goal with C : is_cont _ = true |- _ => apply is_cont_range in C end.
    lia.
  - lia.
  - lia.
Qed.

Lemma byte_val_inj (a b : byte) : byte_val a = byte_val b -> a = b.
Proof.
  intros H. rewrite <- (byte_of_Z_val a), <- (byte_of_Z_val b), H.
  reflexivity.
Qed.

(** No null byte in the bytes, no null character in the text. *)
Lemma decodes_no_nul (bs : bytes) (s : str) :
  decodes bs s -> ~ In x00 bs -> ~ In 0 s.
Proof.
  induction 1 as
    [ | b0 r s H0 _ IH | b0 b1 r s H0 C1 _ IH
      | b0 b1 b2 r s c H0 C1 C2 Hc Hlo Hs _ IH
      | b0 b1 b2 b3 r s c H0 C1 C2 C3 Hc Hr _ IH ];
    intros Hn Hin; cbn [In] in *.
  - assumption.
  - destruct Hin as [Hz|Hin].
    + apply Hn. left. apply byte_val_inj. exact Hz.
    + apply IH; [intros ?; apply Hn; now right|assumption].
  - apply is_cont_range in C1.
    destruct Hin as [Hz|Hin]; [lia|]. apply IH; [|assumption].
    intros ?; apply Hn; auto.
  - destruct Hin as [Hz|Hin]; [lia|]. apply IH; [|assumption].
    intros ?; apply Hn; auto.
  - destruct Hin as [Hz|Hin]; [lia|]. apply IH; [|assumption].
    intros ?; apply Hn; auto.
Qed.

(** No ["/0"] in the bytes, no ["/0"] in the text. *)
Lemma decodes_no_slash0 (bs : bytes) (s : str) :
  decodes bs s ->
  contains Byte.eqb (lit_bytes "/0") bs = false ->
  contains Z.eqb (lit "/0") s = false.
Proof.
  change (lit_bytes "/0") with [x2f; x30]. change (lit "/0") with [47; 48].
  induction 1 as
    [ | b0 r s H0 Hd IH | b0 b1 r s H0 C1 _ IH
      | b0 b1 b2 r s c H0 C1 C2 Hc Hlo Hs _ IH
      | b0 b1 b2 b3 r s c H0 C1 C2 C3 Hc Hr _ IH ];
    intros Hn.
  - reflexivity.
  - cbn [contains]. rewrite (IH (contains_tail _ _ _ _ Hn)), orb_false_r.
    cbn [starts_with].
    destruct (Z.eqb_spec 47 (byte_val b0)) as [E0|_]; [|reflexivity].
    destruct s as [|c1 s1]; [reflexivity|].
    destruct (Z.eqb_spec 48 c1) as [E1|_]; [|reflexivity].
    exfalso.
    destruct (decodes_ascii_head _ _ _ Hd) as (b & r' & -> & Hb & _); [lia|].
    apply contains_head in Hn. cbn [starts_with] in Hn.
    assert (b0 = x2f) by (apply byte_val_inj; rewrite <- E0; reflexivity).
    assert (b = x30) by (apply byte_val_inj; rewrite Hb, <- E1; reflexivity).
    subst. discriminate Hn.
  - apply is_cont_range in C1.
    cbn [contains]. rewrite IH by eauto using contains_tail.
    cbn [starts_with].
    destruct (Z.eqb_spec 47 ((byte_val b0 - 192) * 64 + (byte_val b1 - 128)));
      [lia|reflexivity].
  - cbn [contains]. rewrite IH by eauto using contains_tail.
    cbn [starts_with]. destruct (Z.eqb_spec 47 c); [lia|reflexivity].
  - cbn [contains]. rewrite IH by eauto using contains_tail.
    cbn [starts_with]. destruct (Z.eqb_spec 47 c); [lia|reflexivity].
Qed.

(** The two [replace] calls of the serial reader leave a text alone when
    its bytes hold neither the delimiter nor its two-character form. *)
Lemma strip_unchanged (P : bytes) (s : str) :
  utf8_decode P = Some s ->
  ~ In x00 P ->
  contains Byte.eqb (lit_bytes "/0") P = false ->
  strip_delimiter s = s.
Proof.
  intros Hd Hn Hs. apply utf8_decode_decodes in Hd.
  unfold strip_delimiter, str_replace.
  rewrite (replace_from_absent Z.eqb (lit "/0"))
    by (eapply decodes_no_slash0; eassumption).
  apply replace_from_absent, contains_single_absent.
  eapply decodes_no_nul; eassumption.
Qed.

#[global] Arguments utf8_decode : simpl never.
#[global] Arguments utf8_encode : simpl never.
#[global] Arguments strip_delimiter : simpl never.
#[global] Arguments lit : simpl never.
#[global] Arguments lit_bytes : simpl never.
#[global] Arguments bridgeConnected : simpl never.
#[global] Arguments internetDisconnected : simpl never.
#[global] Arguments DISCONNECT : simpl never.

(** The setters unfold as soon as they are applied, so that a world is
    always displayed field by field. *)
#[global] Arguments set_sock_alive _ _ /.
#[global] Arguments set_sock_socket _ _ /.
#[global] Arguments set_sock_serial_manager _ _ /.
#[global] Arguments set_sock_lock _ _ /.
#[global] Arguments set_sock_thread _ _ /.
#[global] Arguments set_ser_alive _ _ /.
#[global] Arguments set_ser_serial _ _ /.
#[global] Arguments set_ser_socket_manager _ _ /.
#[global] Arguments set_ser_lock _ _ /.
#[global] Arguments set_ser_thread _ _ /.
#[global] Arguments set_env _ _ /.
#[global] Arguments set_trace _ _ /.
#[global] Arguments set_recv_q _ _ /.
#[global] Arguments set_send_q _ _ /.
#[global] Arguments set_connect_q _ _ /.
#[global] Arguments set_read_q _ _ /.
#[global] Arguments set_swrite_q _ _ /.
#[global] Arguments set_open_q _ _ /.
#[global] Arguments set_scan_q _ _ /.

Lemma added_app (w w1 : world) (l : list event) :
  trace w1 = trace w ++ l -> added w w1 = l.
Proof.
  unfold added. intros ->. rewrite skipn_app, skipn_all, Nat.sub_diag.
  reflexivity.
Qed.

(** Symbolic execution of a call on a world given field by field. *)
Ltac open_world w :=
  let e := fresh "e" in
  destruct w as [? ? ? ? ? ? ? ? ? ? ? e ?]; destruct e; cbn in *.

Ltac unfold_calls :=
  unfold SocketThread_run_body, SocketThread_stop, SocketThread_connect,
    SerialThread_run_body, SerialThread_on_data, SerialThread_stop,
    SocketThread_write, SerialThread_write,
    serial_manager_alive, serial_manager_write, socket_manager_write,
    open_serial, find_serial_port, serial_Serial, serial_read, serial_write,
    startup_barrier,
    socket_create, socket_settimeout, socket_connect, socket_recv,
    socket_send, socket_close, the_socket, socket_usable,
    decode, encode, with_lock, Thread_join, thread_state_of,
    answer, emit, get, modify, try_except, raise, bind, ret.

Ltac use_facts :=
  match goal with
  | H : ?x = true |- context [?x] => rewrite H
  | H : ?x = false |- context [?x] => rewrite H
  | H : ?x = Some _ |- context [?x] => rewrite H
  | H : ?x = None |- context [?x] => rewrite H
  end.

Ltac run := repeat first [progress unfold_calls | progress cbn | use_facts].

Lemma truthy_nonempty (P : bytes) :
  P <> [] -> truthy P = true /\ bytes_eqb P [] = false.
Proof. destruct P; [congruence|]. split; reflexivity. Qed.


Lemma skipn_length_app {A} (a l : list A) :
  skipn (List.length a) (a ++ l) = l.
Proof. rewrite skipn_app, skipn_all, Nat.sub_diag. reflexivity. Qed.

(** After [run]: what the call added to the trace. *)
Ltac trace_tail :=
  unfold added; cbn [trace snd fst];
  match goal with
  | |- context [skipn (List.length ?x) _] =>
    let t := fresh "t" in generalize x; intros t
  end;
  rewrite <- ?app_assoc; rewrite ?skipn_length_app; cbn.

Lemma utf8_encode_cons (c : Z) (t : str) :
  utf8_encode (c :: t)
  = match encode_cp c, utf8_encode t with
    | Some b, Some r => Some (b ++ r)
    | _, _ => None
    end.
Proof. reflexivity. Qed.

Lemma decodes_scalar (bs : bytes) (s : str) :
  decodes bs s -> Forall scalar s.
Proof.
  induction 1 as
    [ | b0 r s H0 _ IH | b0 b1 r s H0 C1 _ IH
      | b0 b1 b2 r s c H0 C1 C2 Hc Hlo Hs _ IH
      | b0 b1 b2 b3 r s c H0 C1 C2 C3 Hc Hr _ IH ];
    constructor; try assumption; unfold scalar, is_surrogate in *.
  - pose proof (byte_val_range b0). split; lia.
  - apply is_cont_range in C1. split; lia.
  - apply is_cont_range in C1. apply is_cont_range in C2. split; [lia|assumption].
  - split; lia.
Qed.

Lemma encode_scalars (s : str) :
  Forall scalar s -> exists out, utf8_encode s = Some out.
Proof.
  induction 1 as [|c t [Hr Hs] _ [out IH]]; [exists []; reflexivity|].
  rewrite utf8_encode_cons, IH. unfold encode_cp. rewrite Hs.
  destruct (Z.ltb_spec c 0); [lia|].
  destruct (Z.leb_spec c 1114111); [|lia].
  repeat match goal with |- context [if ?b then _ else _] => destruct b end;
    eauto.
Qed.

Lemma replace_from_erase_Forall {A} (eqb : A -> A -> bool) (Q : A -> Prop)
    (old s : list A) :
  Forall Q s -> forall k, Forall Q (replace_from eqb old [] k s).
Proof.
  induction 1 as [|c t Hc _ IH]; intros k; [constructor|].
  cbn [replace_from]. destruct k; [|apply IH].
  destruct (starts_with eqb old (c :: t)); cbn [app]; [apply IH|].
  constructor; [assumption|apply IH].
Qed.

(** What the serial reader decoded and stripped can always be encoded. *)
Lemma strip_encodes (data : bytes) (s : str) :
  utf8_decode data = Some s ->
  exists out, utf8_encode (strip_delimiter s) = Some out.
Proof.
  intros Hd. apply encode_scalars. unfold strip_delimiter, str_replace.
  do 2 apply replace_from_erase_Forall.
  eapply decodes_scalar, utf8_decode_decodes, Hd.
Qed.

Lemma truthy_not_empty (P : bytes) : truthy P = true -> bytes_eqb P [] = false.
Proof. destruct P; [discriminate|reflexivity]. Qed.

(** The serial reader hands to [SocketThread.write] the encoding of what
    it decoded and stripped. *)
Lemma SerialThread_on_data_forwards (data : bytes) (s : str) (out : bytes)
    (w : world) :
  truthy data = true ->
  utf8_decode data = Some s ->
  utf8_encode (strip_delimiter s) = Some out ->
  SerialThread_on_data data w
  = (emit (LogDebug (strip_delimiter s)) ;;
     socket_manager_write out ;; ret tt) w.
Proof.
  intros Ht Hd He. pose proof (truthy_not_empty _ Ht) as Hb.
  unfold SerialThread_on_data. rewrite Ht, Hb.
  unfold bind at 1 2. unfold ret at 1. unfold decode. rewrite Hd.
  unfold ret at 1. unfold bind at 1 3. unfold encode. rewrite He.
  unfold bind, ret, emit. reflexivity.
Qed.

Lemma serial_body_sends (cfg : config) (fuel : nat) (w : world)
    (data : bytes) (s : str) (out : bytes) (q : list (res bytes))
    (so : socket_obj) :
  read_q (env w) = Ok data :: q ->
  sp_is_open (ser_serial w) = true ->
  ser_socket_manager w = true ->
  sock_lock w = false ->
  sock_socket w = Some so ->
  truthy data = true ->
  utf8_decode data = Some s ->
  utf8_encode (strip_delimiter s) = Some out ->
  socket_sends (added w (snd (SerialThread_run_body cfg fuel w))) = [out].
Proof.
  intros Hq Ho Hm Hl Hs Ht Hd He.
  unfold SerialThread_run_body.
  unfold bind at 1, try_except.
  assert (Hr : (data <- serial_read ;; ret (Some data)) w
               = (Ok (Some data),
                  set_env (set_read_q q (env w))
                          (set_trace (trace w ++ [SerialRead]) w))).
  { open_world w. subst. run. reflexivity. }
  rewrite Hr. rewrite (SerialThread_on_data_forwards _ _ _ _ Ht Hd He).
  open_world w. subst. run.
  destruct (so_connected so && negb (so_closed so));
    [destruct send_q0 as [|[]]|]; run; trace_tail; reflexivity.
Qed.

Lemma hello_decodes :
  utf8_decode (lit_bytes "hello" ++ [x00]) = Some (lit "hello" ++ [0]).
Proof. vm_compute. reflexivity. Qed.

Lemma hello_encodes :
  utf8_encode (strip_delimiter (lit "hello" ++ [0])) = Some (lit_bytes "hello").
Proof. vm_compute. reflexivity. Qed.

(** C1, as the code has it.  A payload that holds neither the null
    delimiter nor its two-character form ["/0"], is not empty and is
    valid UTF-8 reaches [socket.send], through [SocketThread.write],
    byte for byte; and the serial input [b"hello\0"] reaches it as
    [hello]. *)
Theorem serial_relays_payload :
  (forall (cfg : config) (fuel : nat) (w : world) (P : bytes) (s : str)
          (q : list (res bytes)) (so : socket_obj),
      read_q (env w) = Ok P :: q ->
      sp_is_open (ser_serial w) = true ->
      ser_socket_manager w = true ->
      sock_lock w = false ->
      sock_socket w = Some so ->
      P <> [] ->
      ~ In x00 P ->
      contains Byte.eqb (lit_bytes "/0") P = false ->
      utf8_decode P = Some s ->
      socket_sends (added w (snd (SerialThread_run_body cfg fuel w))) = [P])
  /\
  (forall (cfg : config) (fuel : nat) (w : world) (q : list (res bytes))
          (so : socket_obj),
      read_q (env w) = Ok (lit_bytes "hello" ++ [x00]) :: q ->
      sp_is_open (ser_serial w) = true ->
      ser_socket_manager w = true ->
      sock_lock w = false ->
      sock_socket w = Some so ->
      socket_sends (added w (snd (SerialThread_run_body cfg fuel w)))
      = [lit_bytes "hello"]).
Proof.
  split.
  - intros cfg fuel w P s q so Hq Ho Hm Hl Hs Hne Hn0 Hsl Hd.
    eapply serial_body_sends; try eassumption.
    + apply truthy_nonempty, Hne.
    + rewrite (strip_unchanged _ _ Hd Hn0 Hsl). apply utf8_roundtrip, Hd.
  - intros cfg fuel w q so Hq Ho Hm Hl Hs.
    eapply serial_body_sends; try eassumption.
    + reflexivity.
    + apply hello_decodes.
    + apply hello_encodes.
Qed.

Lemma not_in_bytes (b : byte) (l : bytes) :
  existsb (Byte.eqb b) l = false -> ~ In b l.
Proof.
  intros H Hin.
  assert (existsb (Byte.eqb b) l = true).
  { apply existsb_exists. exists b. split; [assumption|].
    apply Byte.byte_dec_lb. reflexivity. }
  congruence.
Qed.

Lemma serial_relays_payload_witness :
  socket_sends
    (added (relaying (set_read_q [Ok (lit_bytes "hello")] no_answers))
       (snd (SerialThread_run_body source_config 1
               (relaying (set_read_q [Ok (lit_bytes "hello")] no_answers)))))
  = [lit_bytes "hello"].
Proof.
  eapply (proj1 serial_relays_payload source_config 1%nat
            (relaying (set_read_q [Ok (lit_bytes "hello")] no_answers))
            (lit_bytes "hello") (lit "hello")).
  - reflexivity.
  - reflexivity.
  - reflexivity.
  - reflexivity.
  - reflexivity.
  - discriminate.
  - apply not_in_bytes. reflexivity.
  - reflexivity.
  - reflexivity.
Defined.

(** C1 as stated fails: [b"a/0b"] holds no null byte, and the socket
    peer receives [b"ab"]. *)
Lemma serial_payload_counterexample :
  let P := lit_bytes "a/0b" in
  let w := relaying (set_read_q [Ok P] no_answers) in
  ~ In x00 P
  /\ socket_sends (added w (snd (SerialThread_run_body source_config 1 w)))
     = [lit_bytes "ab"]
  /\ socket_sends (added w (snd (SerialThread_run_body source_config 1 w)))
     <> [P].
Proof.
  cbv zeta. split; [apply not_in_bytes; reflexivity|].
  split; [reflexivity|]. vm_compute. discriminate.
Qed.





(** C6 on the code: a read of [b"\xff"], which is not UTF-8, ends the
    reader of either channel with [UnicodeDecodeError]; nothing is
    logged and no later read is made. *)
Theorem decode_failure_ends_reader :
  let ws := relaying (set_read_q [Ok [xff]; Ok (lit_bytes "next")] no_answers) in
  let wk := relaying (set_recv_q [Ok [xff]; Ok (lit_bytes "next")] no_answers) in
  SerialThread_run source_config 5 ws
  = (Raise UnicodeDecodeError,
     set_env (set_read_q [Ok (lit_bytes "next")] no_answers)
       (set_trace [SerialRead] ws))
  /\ SocketThread_loop 5 wk
     = (Raise UnicodeDecodeError,
        set_env (set_recv_q [Ok (lit_bytes "next")] no_answers)
          (set_trace [SockRecv 4096 (Some 10%Q)] wk)).
Proof. split; vm_compute; reflexivity. Qed.

(** C4, as the code has it.  Neither [write] reads the [alive] flag, and
    the source has no [ChannelClosed] error: with the lock free and the
    medium in use, the call takes the lock, hands the bytes to the medium
    and returns what the medium answers (the byte count, unless the
    medium fails), then releases the lock. *)
Theorem write_ignores_alive :
  (forall (data : bytes) (b : bool) (w : world),
      SocketThread_write data (set_sock_alive b w)
      = (fst (SocketThread_write data w),
         set_sock_alive b (snd (SocketThread_write data w))))
  /\
  (forall (data : bytes) (b : bool) (w : world),
      SerialThread_write data (set_ser_alive b w)
      = (fst (SerialThread_write data w),
         set_ser_alive b (snd (SerialThread_write data w))))
  /\
  (forall (data : bytes) (w : world) (so : socket_obj),
      sock_lock w = false ->
      sock_socket w = Some so ->
      socket_usable so = true ->
      let r := next_answer (send_q (env w)) (Ok (Z.of_nat (List.length data))) in
      fst (SocketThread_write data w) = r
      /\ (r <> Hang ->
          added w (snd (SocketThread_write data w))
          = [Acquire SocketLock; SockSend data; Release SocketLock]))
  /\
  (forall (data : bytes) (w : world),
      ser_lock w = false ->
      sp_is_open (ser_serial w) = true ->
      let r := next_answer (swrite_q (env w)) (Ok (Z.of_nat (List.length data))) in
      fst (SerialThread_write data w) = r
      /\ (r <> Hang ->
          added w (snd (SerialThread_write data w))
          = [Acquire SerialLock; SerialWrite data; Release SerialLock])).
Proof.
  split; [|split; [|split]].
  - intros data b w. open_world w. run.
    destruct sock_lock0; [reflexivity|].
    destruct sock_socket0 as [so|]; [|reflexivity]. run.
    destruct (so_connected so && negb (so_closed so));
      [destruct send_q0 as [|[]]|]; reflexivity.
  - intros data b w. open_world w. run.
    destruct ser_lock0; [reflexivity|].
    destruct (sp_is_open ser_serial0);
      [destruct swrite_q0 as [|[]]|]; reflexivity.
  - intros data w so Hl Hs Hu. unfold socket_usable in Hu.
    open_world w. subst. run.
    destruct send_q0 as [|[]]; cbn; (split; [reflexivity|]); intros Hr;
      try congruence; trace_tail; reflexivity.
  - intros data w Hl Ho. open_world w. subst. run.
    destruct swrite_q0 as [|[]]; cbn; (split; [reflexivity|]); intros Hr;
      try congruence; trace_tail; reflexivity.
Qed.

Lemma write_ignores_alive_witness :
  fst (SocketThread_write (lit_bytes "ping")
         (set_sock_alive false (relaying no_answers))) = Ok 4
  /\ fst (SerialThread_write (lit_bytes "ping")
            (set_ser_alive false (relaying no_answers))) = Ok 4.
Proof.
  split.
  - apply (proj1 (proj2 (proj2 write_ignores_alive)) (lit_bytes "ping")
             (set_sock_alive false (relaying no_answers))
             {| so_timeout := Some 10%Q; so_connected := true;
                so_closed := false |} eq_refl eq_refl eq_refl).
  - apply (proj2 (proj2 (proj2 write_ignores_alive)) (lit_bytes "ping")
             (set_ser_alive false (relaying no_answers)) eq_refl eq_refl).
Defined.

(** C4 as stated fails: with [alive] false, [write] does not fail; it
    sends the bytes and returns their count. *)
Lemma write_when_not_alive_counterexample :
  let w := set_sock_alive false (relaying no_answers) in
  sock_alive w = false
  /\ fst (SocketThread_write (lit_bytes "ping") w) = Ok 4
  /\ socket_sends (added w (snd (SocketThread_write (lit_bytes "ping") w)))
     = [lit_bytes "ping"].
Proof. cbv zeta. repeat split. Qed.

Lemma not_empty_bytes (data : bytes) : data <> [] -> bytes_eqb data [] = false.
Proof. destruct data; [congruence|reflexivity]. Qed.

Lemma str_eqb_eq (a b : str) : str_eqb a b = true <-> a = b.
Proof.
  unfold str_eqb. revert b.
  induction a as [|x a IH]; intros [|y b]; cbn [list_eqb];
    try (split; [discriminate|congruence]); [split; reflexivity|].
  rewrite andb_true_iff, Z.eqb_eq, IH. split.
  - intros [-> ->]. reflexivity.
  - intros H. injection H as -> ->. split; reflexivity.
Qed.

(** One turn of the socket loop on non-empty data that decodes. *)
Lemma socket_body_on_data (w : world) (data : bytes) (s : str)
    (q : list (res bytes)) (so : socket_obj) :
  recv_q (env w) = Ok data :: q ->
  data <> [] ->
  utf8_decode data = Some s ->
  sock_socket w = Some so ->
  socket_usable so = true ->
  sock_serial_manager w = true ->
  (ser_alive w = true ->
   ser_lock w = false ->
   sp_is_open (ser_serial w) = true ->
   accepts (swrite_q (env w)) = true ->
   fst (SocketThread_run_body w) = Ok tt
   /\ added w (snd (SocketThread_run_body w))
      = [SockRecv 4096 (so_timeout so); LogDebug s; Acquire SerialLock;
         SerialWrite data; Release SerialLock]
   /\ sock_alive (snd (SocketThread_run_body w))
      = (if str_eqb s DISCONNECT then false else sock_alive w))
  /\
  (ser_alive w = false ->
   fst (SocketThread_run_body w) = Ok tt
   /\ added w (snd (SocketThread_run_body w))
      = [SockRecv 4096 (so_timeout so); LogDebug s]
   /\ sock_alive (snd (SocketThread_run_body w))
      = (if str_eqb s DISCONNECT then false else sock_alive w)).
Proof.
  intros Hq Hne Hd Hs Hu Hm.
  pose proof (utf8_roundtrip _ _ Hd) as He.
  pose proof (not_empty_bytes _ Hne) as Hb.
  unfold socket_usable in Hu.
  split.
  - intros Ha Hl Ho Hacc. open_world w. subst. run.
    destruct swrite_q0 as [|[n| |] ?]; try discriminate Hacc;
      run; destruct (str_eqb s DISCONNECT); run;
      (split; [reflexivity|split; [trace_tail; reflexivity|reflexivity]]).
  - intros Ha. open_world w. subst. run.
    destruct (str_eqb s DISCONNECT); run;
      (split; [reflexivity|split; [trace_tail; reflexivity|reflexivity]]).
Qed.

Lemma SocketThread_loop_last (n : nat) (w : world) :
  sock_alive w = true ->
  fst (SocketThread_run_body w) = Ok tt ->
  sock_alive (snd (SocketThread_run_body w)) = false ->
  SocketThread_loop (S n) w = (Ok tt, snd (SocketThread_run_body w)).
Proof.
  intros Ha Hr Hf. cbn [SocketThread_loop]. rewrite Ha.
  destruct (SocketThread_run_body w) as [r w1]. cbn [fst snd] in *. subst r.
  destruct n; cbn [SocketThread_loop]; rewrite Hf; reflexivity.
Qed.

(** C3, as the code has it.  Non-empty data that decodes is forwarded to
    the serial peer's [write] unchanged when the serial peer is alive,
    [DISCONNECT] like any other value, and not at all when it is not
    alive; after [DISCONNECT] the flag [alive] is false and the loop
    returns without an error, having written no [internetDisconnected]
    frame. *)
Theorem socket_forwards_then_disconnects :
  forall (n : nat) (w : world) (data : bytes) (s : str)
         (q : list (res bytes)) (so : socket_obj),
    recv_q (env w) = Ok data :: q ->
    data <> [] ->
    utf8_decode data = Some s ->
    sock_alive w = true ->
    sock_socket w = Some so ->
    socket_usable so = true ->
    sock_serial_manager w = true ->
    (ser_alive w = false
     \/ (ser_lock w = false /\ sp_is_open (ser_serial w) = true
         /\ accepts (swrite_q (env w)) = true)) ->
    fst (SocketThread_run_body w) = Ok tt
    /\ serial_writes (added w (snd (SocketThread_run_body w)))
       = (if ser_alive w then [data] else [])
    /\ sock_alive (snd (SocketThread_run_body w))
       = negb (str_eqb s DISCONNECT)
    /\ (s = DISCONNECT ->
        SocketThread_loop (S n) w = (Ok tt, snd (SocketThread_run_body w))).
Proof.
  intros n w data s q so Hq Hne Hd Ha Hs Hu Hm Hpeer.
  destruct (socket_body_on_data w data s q so Hq Hne Hd Hs Hu Hm)
    as [Hon Hoff].
  assert (H : fst (SocketThread_run_body w) = Ok tt
              /\ serial_writes (added w (snd (SocketThread_run_body w)))
                 = (if ser_alive w then [data] else [])
              /\ sock_alive (snd (SocketThread_run_body w))
                 = negb (str_eqb s DISCONNECT)).
  { destruct (ser_alive w) eqn:Hp.
    - destruct Hpeer as [?|(Hl & Ho & Hacc)]; [discriminate|].
      destruct (Hon eq_refl Hl Ho Hacc) as (Hr & Ht & Hal).
      rewrite Hr, Ht, Hal, Ha.
      destruct (str_eqb s DISCONNECT); repeat split.
    - destruct (Hoff eq_refl) as (Hr & Ht & Hal).
      rewrite Hr, Ht, Hal, Ha.
      destruct (str_eqb s DISCONNECT); repeat split. }
  destruct H as (Hr & Ht & Hal).
  split; [assumption|split; [assumption|split; [assumption|]]].
  intros ->. apply SocketThread_loop_last; assumption.
Qed.

Lemma socket_forwards_then_disconnects_witness :
  let w := relaying (set_recv_q [Ok (lit_bytes "DISCONNECT")] no_answers) in
  fst (SocketThread_run_body w) = Ok tt
  /\ serial_writes (added w (snd (SocketThread_run_body w)))
     = [lit_bytes "DISCONNECT"]
  /\ sock_alive (snd (SocketThread_run_body w)) = false
  /\ SocketThread_loop 1 w = (Ok tt, snd (SocketThread_run_body w)).
Proof.
  cbv zeta.
  assert (Hne : lit_bytes "DISCONNECT" <> []) by discriminate.
  destruct (socket_forwards_then_disconnects O
              (relaying (set_recv_q [Ok (lit_bytes "DISCONNECT")] no_answers))
              (lit_bytes "DISCONNECT") DISCONNECT []
              {| so_timeout := Some 10%Q; so_connected := true;
                 so_closed := false |}
              eq_refl Hne eq_refl eq_refl eq_refl eq_refl eq_refl
              (or_intror (conj eq_refl (conj eq_refl eq_refl))))
    as (Hr & Hw & Ha & Hl).
  split; [exact Hr|split; [exact Hw|split; [exact Ha|exact (Hl eq_refl)]]].
Defined.

(** C3 as stated fails: [DISCONNECT] from the server is written to the
    serial peer before the loop ends. *)
Lemma disconnect_is_forwarded_counterexample :
  let w := relaying (set_recv_q [Ok (lit_bytes "DISCONNECT")] no_answers) in
  utf8_decode (lit_bytes "DISCONNECT") = Some DISCONNECT
  /\ fst (SocketThread_loop 3 w) = Ok tt
  /\ serial_writes (added w (snd (SocketThread_loop 3 w)))
     = [lit_bytes "DISCONNECT"].
Proof. cbv zeta. repeat split. Qed.

(** C5 on the code.  On an empty read the loop logs it and calls
    [stop()], which it runs in the socket thread itself: [alive] becomes
    false, the [internetDisconnected] frame is written to the serial side
    when the serial peer is alive, the socket is closed, and then
    [self.join()] (line 69) is the thread joining itself.  The turn never
    comes back normally; when the write returns (or is not made) it ends
    in [RuntimeError], and so does the loop. *)
Theorem empty_read_ends_in_self_join :
  forall (w : world) (q : list (res bytes)) (so : socket_obj),
    recv_q (env w) = Ok [] :: q ->
    sock_socket w = Some so ->
    socket_usable so = true ->
    sock_serial_manager w = true ->
    ser_lock w = false ->
    let r := SocketThread_run_body w in
    (forall x : unit, fst r <> Ok x)
    /\ sock_alive (snd r) = false
    /\ recv_q (env (snd r)) = q
    /\ (ser_alive w = false
        \/ (sp_is_open (ser_serial w) = true
            /\ accepts (swrite_q (env w)) = true) ->
        fst r = Raise RuntimeError
        /\ added w (snd r)
           = [SockRecv 4096 (so_timeout so); LogError []]
             ++ (if ser_alive w
                 then [Acquire SerialLock; SerialWrite internetDisconnected;
                       Release SerialLock]
                 else [])
             ++ [SockClose]
        /\ option_map so_closed (sock_socket (snd r)) = Some true
        /\ (sock_alive w = true ->
            forall n : nat, SocketThread_loop (S n) w = r)).
Proof.
  intros w q so Hq Hs Hu Hm Hl. unfold socket_usable in Hu.
  cbv zeta. cbn [SocketThread_loop].
  open_world w. subst. run.
  destruct ser_alive0, sock_thread0; run;
    try (destruct (sp_is_open ser_serial0) eqn:Ho; run;
         [destruct swrite_q0 as [|[n| |] ?]; run|]);
    (split; [intros x; discriminate|]);
    (split; [reflexivity|split; [reflexivity|]]);
    (intros [Hf|[Ho' Hacc]]; try discriminate);
    (split; [reflexivity|split; [trace_tail; reflexivity|]]);
    (split; [reflexivity|]); intros -> k; reflexivity.
Qed.

Lemma empty_read_ends_in_self_join_witness :
  let w := relaying (set_recv_q [Ok []] no_answers) in
  fst (SocketThread_loop 3 w) = Raise RuntimeError
  /\ serial_writes (added w (snd (SocketThread_loop 3 w)))
     = [internetDisconnected]
  /\ sock_alive (snd (SocketThread_loop 3 w)) = false.
Proof.
  cbv zeta.
  destruct (empty_read_ends_in_self_join
              (relaying (set_recv_q [Ok []] no_answers)) []
              {| so_timeout := Some 10%Q; so_connected := true;
                 so_closed := false |}
              eq_refl eq_refl eq_refl eq_refl eq_refl)
    as (_ & Ha & _ & H).
  destruct (H (or_intror (conj eq_refl eq_refl))) as (Hr & Ht & _ & Hloop).
  rewrite (Hloop eq_refl 2%nat).
  split; [exact Hr|]. split; [rewrite Ht; reflexivity|exact Ha].
Defined.






(* ------------------------------------------------------------------ *)
(** *** Invariants that every call of the two channels keeps *)

Create HintDb pres.

Section Preservation.
Variable I : world -> Prop.

Hypothesis I_events : forall w l,
    Forall harmless l -> I w -> I (set_trace (trace w ++ l) w).
Hypothesis I_poll : forall w so b,
    sock_socket w = Some so -> I w ->
    I (set_trace (trace w ++ [SockRecv b (so_timeout so)]) w).
Hypothesis I_env : forall w e, I w -> I (set_env e w).
Hypothesis I_sock_lock : forall w b, I w -> I (set_sock_lock b w).
Hypothesis I_ser_lock : forall w b, I w -> I (set_ser_lock b w).
Hypothesis I_sock_alive : forall w b, I w -> I (set_sock_alive b w).
Hypothesis I_ser_alive : forall w b, I w -> I (set_ser_alive b w).
Hypothesis I_ser_serial : forall w s, I w -> I (set_ser_serial s w).
Hypothesis I_socket : forall w so c cl,
    sock_socket w = Some so -> I w ->
    I (set_sock_socket
         (Some {| so_timeout := so_timeout so; so_connected := c;
                  so_closed := cl |}) w).

Lemma pres_ret {A} (a : A) : preserves I (ret a).
  Proof. intros w Hw. exact Hw. Qed.

Lemma pres_raise {A} (e : exn) : preserves I (@raise A e).
  Proof. intros w Hw. exact Hw. Qed.

Lemma pres_bind {A B} (c : M A) (k : A -> M B) :
    preserves I c -> (forall a, preserves I (k a)) -> preserves I (bind c k).
  Proof.
    intros Hc Hk w Hw. unfold bind. specialize (Hc w Hw).
    destruct (c w) as [[a|e|] w1]; cbn [snd] in *;
      [apply Hk|..]; assumption.
  Qed.

Lemma pres_try_except {A} (c : M A) (h : exn -> M A) :
    preserves I c -> (forall e, preserves I (h e)) ->
    preserves I (try_except c h).
  Proof.
    intros Hc Hh w Hw. unfold try_except. specialize (Hc w Hw).
    destruct (c w) as [[a|e|] w1]; cbn [snd] in *;
      [|apply Hh|]; assumption.
  Qed.

Lemma pres_emit (e : event) : harmless e -> preserves I (emit e).
  Proof.
    intros He w Hw. unfold emit. cbn [snd].
    apply (I_events w [e]); [repeat constructor|]; assumption.
  Qed.

Lemma pres_get {A} (f : world -> A) : preserves I (get f).
  Proof. intros w Hw. exact Hw. Qed.

Lemma pres_answer {A} (q : environment -> list (res A))
      (upd : list (res A) -> environment -> environment) (dflt : res A) :
    preserves I (answer q upd dflt).
  Proof.
    intros w Hw. unfold answer.
    destruct (q (env w)); cbn [snd]; [|apply I_env]; assumption.
  Qed.

Lemma pres_with_lock {A} (l : lock_id) (c : M A) :
    preserves I c -> preserves I (with_lock l c).
  Proof.
    intros Hc w Hw. unfold with_lock. destruct l.
    - destruct (sock_lock w); [exact Hw|].
      assert (H1 : I (set_trace (trace w ++ [Acquire SocketLock])
                        (set_sock_lock true w))).
      { apply (I_events (set_sock_lock true w) [Acquire SocketLock]);
          [repeat constructor|apply I_sock_lock, Hw]. }
      specialize (Hc _ H1).
      destruct (c _) as [[a|e|] w1]; cbn [snd] in *; try assumption;
        apply (I_events (set_sock_lock false w1) [Release SocketLock]);
        [repeat constructor|apply I_sock_lock, Hc
        |repeat constructor|apply I_sock_lock, Hc].
    - destruct (ser_lock w); [exact Hw|].
      assert (H1 : I (set_trace (trace w ++ [Acquire SerialLock])
                        (set_ser_lock true w))).
      { apply (I_events (set_ser_lock true w) [Acquire SerialLock]);
          [repeat constructor|apply I_ser_lock, Hw]. }
      specialize (Hc _ H1).
      destruct (c _) as [[a|e|] w1]; cbn [snd] in *; try assumption;
        apply (I_events (set_ser_lock false w1) [Release SerialLock]);
        [repeat constructor|apply I_ser_lock, Hc
        |repeat constructor|apply I_ser_lock, Hc].
  Qed.

Lemma pres_if {A} (b : bool) (c1 c2 : M A) :
    preserves I c1 -> preserves I c2 -> preserves I (if b then c1 else c2).
  Proof. destruct b; auto. Qed.

Lemma pres_the_socket : preserves I the_socket.
  Proof.
    intros w Hw. unfold the_socket. destruct (sock_socket w); exact Hw.
  Qed.

Lemma pres_socket_recv (bufsize : Z) : preserves I (socket_recv bufsize).
  Proof.
    intros w Hw. unfold socket_recv, bind, the_socket.
    destruct (sock_socket w) as [so|] eqn:Hs; [|exact Hw].
    unfold emit.
    pose proof (I_poll w so bufsize Hs Hw) as H1.
    destruct (socket_usable so); [apply pres_answer|]; exact H1.
  Qed.

Lemma pres_socket_send (data : bytes) : preserves I (socket_send data).
  Proof.
    unfold socket_send. apply pres_bind; [apply pres_the_socket|].
    intros so. apply pres_bind; [apply pres_emit; exact Logic.I|]. intros _.
    apply pres_if; [apply pres_answer|apply pres_raise].
  Qed.

Lemma pres_socket_close : preserves I socket_close.
  Proof.
    intros w Hw. unfold socket_close, bind, the_socket.
    destruct (sock_socket w) as [so|] eqn:Hs; [|exact Hw].
    unfold emit, modify. cbn [snd].
    apply (I_socket (set_trace (trace w ++ [SockClose]) w) so);
      [exact Hs|].
    apply (I_events w [SockClose]); [repeat constructor|exact Hw].
  Qed.

Lemma pres_socket_connect (host : string) (p : Z) :
    preserves I (socket_connect host p).
  Proof.
    intros w Hw. unfold socket_connect, bind, the_socket.
    destruct (sock_socket w) as [so|] eqn:Hs; [|exact Hw].
    unfold emit.
    assert (H1 : I (set_trace (trace w ++ [SockConnect host p]) w)).
    { apply (I_events w [SockConnect host p]); [repeat constructor|exact Hw]. }
    pose proof (pres_answer connect_q set_connect_q (Ok tt) _ H1) as H2.
    unfold answer in *.
    destruct (connect_q (env (set_trace (trace w ++ [SockConnect host p]) w)))
      as [|[[]|e|] rest]; cbn [snd] in *; try exact H2.
    - unfold modify. cbn [snd].
      apply (I_socket (set_trace (trace w ++ [SockConnect host p]) w) so);
        [exact Hs|exact H2].
    - unfold modify. cbn [snd].
      apply (I_socket
               (set_env (set_connect_q rest (env w))
                  (set_trace (trace w ++ [SockConnect host p]) w)) so);
        [exact Hs|exact H2].
  Qed.

Lemma pres_serial_write (data : bytes) : preserves I (serial_write data).
  Proof.
    unfold serial_write. apply pres_bind; [apply pres_get|]. intros s.
    apply pres_bind; [apply pres_emit; exact Logic.I|]. intros _.
    apply pres_if; [apply pres_answer|apply pres_raise].
  Qed.

Lemma pres_serial_read : preserves I serial_read.
  Proof.
    unfold serial_read. apply pres_bind; [apply pres_get|]. intros s.
    apply pres_bind; [apply pres_emit; exact Logic.I|]. intros _.
    apply pres_if; [apply pres_answer|apply pres_raise].
  Qed.

Lemma pres_serial_Serial (dev : string) : preserves I (serial_Serial dev).
  Proof.
    unfold serial_Serial.
    apply pres_bind; [apply pres_emit; exact Logic.I|]. intros _.
    apply pres_bind; [apply pres_answer|]. intros _. apply pres_ret.
  Qed.

Lemma find_serial_port_from_trace (scans : list (list port)) :
    forall tr, exists l,
      snd (find_serial_port_from scans tr) = tr ++ l /\ Forall harmless l.
  Proof.
    induction scans as [|ports rest IH]; intros tr; cbn [find_serial_port_from].
    - exists [Sleep 1]. split; [reflexivity|repeat constructor].
    - destruct (find is_calculator ports).
      + exists [Sleep 1; Comports]. split; [reflexivity|repeat constructor].
      + destruct (IH (tr ++ [Sleep 1; Comports])) as (l & -> & Hl).
        exists ([Sleep 1; Comports] ++ l). rewrite <- app_assoc.
        split; [reflexivity|]. repeat constructor. exact Hl.
  Qed.

Lemma pres_find_serial_port : preserves I find_serial_port.
  Proof.
    intros w Hw. unfold find_serial_port.
    destruct (find_serial_port_from_trace (scan_q (env w)) (trace w))
      as (l & Hl & Hh).
    destruct (find_serial_port_from (scan_q (env w)) (trace w))
      as [[r rest] tr]. cbn [snd] in Hl. subst tr.
    assert (H1 : I (set_trace (trace w ++ l)
                      (set_env (set_scan_q rest (env w)) w))).
    { apply (I_events (set_env (set_scan_q rest (env w)) w) l Hh).
      apply I_env, Hw. }
    destruct r; exact H1.
  Qed.

Lemma pres_decode (data : bytes) : preserves I (decode data).
  Proof. intros w Hw. unfold decode. destruct (utf8_decode data); exact Hw. Qed.

Lemma pres_encode (s : str) : preserves I (encode s).
  Proof. intros w Hw. unfold encode. destruct (utf8_encode s); exact Hw. Qed.

Lemma pres_Thread_join (caller target : thread_id) (t : option Z) :
    preserves I (Thread_join caller target t).
  Proof.
    intros w Hw. unfold Thread_join.
    assert (H1 : I (set_trace (trace w ++ [Join target t]) w)).
    { apply (I_events w [Join target t]); [repeat constructor|exact Hw]. }
    destruct (thread_state_of target w), (thread_id_eqb caller target), t;
      assumption.
  Qed.

Lemma pres_SocketThread_write (data : bytes) :
    preserves I (SocketThread_write data).
  Proof. apply pres_with_lock, pres_socket_send. Qed.

Lemma pres_SerialThread_write (data : bytes) :
    preserves I (SerialThread_write data).
  Proof. apply pres_with_lock, pres_serial_write. Qed.

Lemma pres_serial_manager_alive : preserves I serial_manager_alive.
  Proof.
    intros w Hw. unfold serial_manager_alive.
    destruct (sock_serial_manager w); exact Hw.
  Qed.

Lemma pres_serial_manager_write (data : bytes) :
    preserves I (serial_manager_write data).
  Proof.
    intros w Hw. unfold serial_manager_write.
    destruct (sock_serial_manager w);
      [apply pres_SerialThread_write|]; exact Hw.
  Qed.

Lemma pres_socket_manager_write (data : bytes) :
    preserves I (socket_manager_write data).
  Proof.
    intros w Hw. unfold socket_manager_write.
    destruct (ser_socket_manager w);
      [apply pres_SocketThread_write|]; exact Hw.
  Qed.

Lemma pres_set_sock_alive (b : bool) :
    preserves I (modify (set_sock_alive b)).
  Proof. intros w Hw. apply I_sock_alive, Hw. Qed.

Lemma pres_set_ser_alive (b : bool) :
    preserves I (modify (set_ser_alive b)).
  Proof. intros w Hw. apply I_ser_alive, Hw. Qed.

Lemma pres_set_ser_serial (s : serial_obj) :
    preserves I (modify (set_ser_serial s)).
  Proof. intros w Hw. apply I_ser_serial, Hw. Qed.

#[local] Hint Resolve pres_ret pres_raise pres_get pres_answer pres_the_socket
    pres_socket_recv pres_socket_send pres_socket_close pres_socket_connect
    pres_serial_write pres_serial_read pres_serial_Serial
    pres_find_serial_port pres_decode pres_encode pres_Thread_join
    pres_SocketThread_write pres_SerialThread_write
    pres_serial_manager_alive pres_serial_manager_write
    pres_socket_manager_write pres_set_sock_alive pres_set_ser_alive
    pres_set_ser_serial : pres.

  (** Splits a call along its binds, handlers and tests. *)
Ltac pres :=
    repeat first
      [ solve [auto with pres]
      | apply pres_emit; exact Logic.I
      | apply pres_bind; [|intros ?]
      | apply pres_try_except; [|intros ?]
      | apply pres_with_lock
      | match goal with
        | |- preserves _ (if ?b then _ else _) => destruct b
        | |- preserves _ (match ?x with _ => _ end) => destruct x
        end ].

Lemma pres_SocketThread_stop (caller : thread_id) :
    preserves I (SocketThread_stop caller).
  Proof. unfold SocketThread_stop. pres. Qed.

Lemma pres_SocketThread_run_body : preserves I SocketThread_run_body.
  Proof.
    pose proof pres_SocketThread_stop.
    unfold SocketThread_run_body. pres.
  Qed.

Lemma pres_SocketThread_loop (fuel : nat) :
    preserves I (SocketThread_loop fuel).
  Proof.
    induction fuel as [|n IH]; intros w Hw; cbn [SocketThread_loop];
      destruct (sock_alive w); try exact Hw.
    pose proof (pres_SocketThread_run_body w Hw) as H1.
    destruct (SocketThread_run_body w) as [[[]|e|] w1]; cbn [snd] in *;
      [apply IH|..]; exact H1.
  Qed.

Lemma pres_open_serial (cfg : config) : preserves I (open_serial cfg).
  Proof. unfold open_serial. pres. Qed.

Lemma pres_SerialThread_reconnect (cfg : config) (fuel : nat) :
    preserves I (SerialThread_reconnect cfg fuel).
  Proof.
    pose proof (pres_open_serial cfg).
    induction fuel as [|n IH]; cbn [SerialThread_reconnect];
      [intros w Hw; exact Hw|]. pres.
  Qed.

Lemma pres_SerialThread_on_data (data : bytes) :
    preserves I (SerialThread_on_data data).
  Proof. unfold SerialThread_on_data. pres. Qed.

Lemma pres_SerialThread_run_body (cfg : config) (fuel : nat) :
    preserves I (SerialThread_run_body cfg fuel).
  Proof.
    pose proof (pres_SerialThread_reconnect cfg fuel).
    pose proof pres_SerialThread_on_data.
    unfold SerialThread_run_body. pres.
  Qed.
End Preservation.

Lemma recv_timeouts_app (a b : list event) :
  recv_timeouts (a ++ b) = recv_timeouts a ++ recv_timeouts b.
Proof.
  induction a as [|e a IH]; [reflexivity|].
  destruct e; cbn [app recv_timeouts]; rewrite IH; reflexivity.
Qed.

Lemma recv_timeouts_harmless (l : list event) :
  Forall harmless l -> recv_timeouts l = [].
Proof.
  induction 1 as [|e l He _ IH]; [reflexivity|].
  destruct e; cbn [recv_timeouts harmless] in *; tauto.
Qed.

Section PollInvariant.
Variable t : Q.

Lemma poll_events (w : world) (l : list event) :
    Forall harmless l -> poll_invariant t w ->
    poll_invariant t (set_trace (trace w ++ l) w).
  Proof.
    intros Hl [Hp Hs]. split; [|exact Hs]. cbn [trace set_trace].
    unfold polls_at. rewrite recv_timeouts_app, (recv_timeouts_harmless l Hl),
      app_nil_r. exact Hp.
  Qed.

Lemma poll_poll (w : world) (so : socket_obj) (b : Z) :
    sock_socket w = Some so -> poll_invariant t w ->
    poll_invariant t (set_trace (trace w ++ [SockRecv b (so_timeout so)]) w).
  Proof.
    intros Hso [Hp Hs]. split; [|exact Hs]. cbn [trace set_trace].
    unfold polls_at. rewrite recv_timeouts_app. apply Forall_app.
    split; [exact Hp|]. rewrite Hso in Hs. repeat constructor. exact Hs.
  Qed.

Lemma poll_socket (w : world) (so : socket_obj) (c cl : bool) :
    sock_socket w = Some so -> poll_invariant t w ->
    poll_invariant t
      (set_sock_socket
         (Some {| so_timeout := so_timeout so; so_connected := c;
                  so_closed := cl |}) w).
  Proof.
    intros Hso [Hp Hs]. split; [exact Hp|]. rewrite Hso in Hs. exact Hs.
  Qed.

  (** The loop of the socket channel never changes the timeout, and
      polls under it. *)
Lemma SocketThread_loop_polls (fuel : nat) :
    preserves (poll_invariant t) (SocketThread_loop fuel).
  Proof.
    apply pres_SocketThread_loop;
      first [ apply poll_events | apply poll_poll | apply poll_socket
            | intros w x [Hp Hs]; split; assumption ].
  Qed.
End PollInvariant.

(** [run] installs the timeout 10 before it connects; nothing after
    that sets another one. *)
Lemma SocketThread_connect_polls (cfg : config) (w : world) :
  polls_at 10 (trace w) ->
  poll_invariant 10 (snd (SocketThread_connect cfg w)).
Proof.
  intros Hp. unfold SocketThread_connect.
  assert (H0 : poll_invariant 10
                 (snd ((socket_create ;; socket_settimeout 10) w))).
  { unfold socket_create, socket_settimeout, the_socket, emit, modify, bind.
    cbn. split; [|reflexivity]. cbn.
    unfold polls_at. rewrite <- app_assoc, recv_timeouts_app, app_nil_r.
    exact Hp. }
  assert (Hrest : preserves (poll_invariant 10)
            (socket_connect (SERVER_ADDRESS cfg) (SERVER_PORT cfg) ;;
             modify (set_sock_alive true) ;;
             serial_manager_write bridgeConnected ;; ret tt)).
  { apply pres_bind;
      [apply pres_socket_connect|intros _; apply pres_bind;
        [|intros _; apply pres_bind;
           [apply pres_serial_manager_write|intros _; apply pres_ret]]];
      first [ apply poll_events | apply poll_poll | apply poll_socket
            | intros w0 x [H1 H2]; split; assumption
            | intros w0 [H1 H2]; split; assumption ]. }
  unfold bind at 1 2. unfold bind at 1 in H0.
  destruct (socket_create w) as [[[]|e|] w1]; cbn [snd] in *;
    try exact H0.
  destruct (socket_settimeout 10 w1) as [[[]|e|] w2]; cbn [snd] in *;
    try exact H0.
  apply Hrest, H0.
Qed.

(** C8, as the code has it.  The only timeout the socket channel ever
    sets is the 10 it sets before [connect]: every poll made by [run]
    waits under that timeout, and a poll that times out is not an error,
    the loop goes on to its next turn with nothing else done. *)
Theorem socket_polls_under_connect_timeout :
  (forall (cfg : config) (fuel : nat) (w : world),
      polls_at 10 (trace w) ->
      polls_at 10 (trace (snd (SocketThread_run cfg fuel w))))
  /\
  (forall (n : nat) (w : world) (q : list (res bytes)) (so : socket_obj),
      recv_q (env w) = Raise SocketTimeout :: q ->
      sock_alive w = true ->
      sock_socket w = Some so ->
      socket_usable so = true ->
      let w1 := set_env (set_recv_q q (env w))
                  (set_trace (trace w ++ [SockRecv 4096 (so_timeout so)]) w) in
      SocketThread_run_body w = (Ok tt, w1)
      /\ SocketThread_loop (S n) w = SocketThread_loop n w1).
Proof.
  split.
  - intros cfg fuel w Hp. unfold SocketThread_run, bind.
    unfold startup_barrier. destruct (sock_serial_manager w); [|exact Hp].
    pose proof (SocketThread_connect_polls cfg w Hp) as H1.
    destruct (SocketThread_connect cfg w) as [[[]|e|] w1]; cbn [snd] in *;
      try apply H1.
    apply (SocketThread_loop_polls 10 fuel w1 H1).
  - intros n w q so Hq Ha Hs Hu w1.
    assert (Hb : SocketThread_run_body w = (Ok tt, w1)).
    { subst w1. unfold socket_usable in Hu. open_world w. subst. run.
      reflexivity. }
    split; [exact Hb|].
    cbn [SocketThread_loop]. rewrite Ha, Hb. reflexivity.
Qed.

Lemma socket_polls_under_connect_timeout_witness :
  polls_at 10
    (trace (snd (SocketThread_run source_config 5
                   (started (set_recv_q [Raise SocketTimeout;
                                         Ok (lit_bytes "DISCONNECT")]
                               no_answers))))).
Proof.
  apply (proj1 socket_polls_under_connect_timeout source_config 5%nat
           (started (set_recv_q [Raise SocketTimeout;
                                 Ok (lit_bytes "DISCONNECT")] no_answers))).
  constructor.
Defined.

(** C8 as stated fails: the polls wait up to 10, not 0.1. *)
Lemma poll_timeout_counterexample :
  let w := started (set_recv_q [Raise SocketTimeout;
                                Ok (lit_bytes "DISCONNECT")] no_answers) in
  fst (SocketThread_run source_config 5 w) = Ok tt
  /\ recv_timeouts (trace (snd (SocketThread_run source_config 5 w)))
     = [Some 10%Q; Some 10%Q]
  /\ ~ (10 == 1 # 10)%Q.
Proof.
  cbv zeta. split; [vm_compute; reflexivity|].
  split; [vm_compute; reflexivity|]. discriminate.
Qed.





(* ------------------------------------------------------------------ *)
(** *** The startup barrier *)

(** A value of [static] is kept by the calls of both loops. *)
Section Static.
Variable v : thread_state * thread_state * bool * bool.

Lemma static_SocketThread_run_body :
  preserves (fun w => static w = v) SocketThread_run_body.
Proof. apply pres_SocketThread_run_body; intros; assumption. Qed.

Lemma static_SerialThread_run_body (cfg : config) (fuel : nat) :
  preserves (fun w => static w = v) (SerialThread_run_body cfg fuel).
Proof. apply pres_SerialThread_run_body; intros; assumption. Qed.

Lemma static_socket_connect (host : string) (p : Z) :
  preserves (fun w => static w = v) (socket_connect host p).
Proof. apply pres_socket_connect; intros; assumption. Qed.

Lemma static_serial_manager_write (data : bytes) :
  preserves (fun w => static w = v) (serial_manager_write data).
Proof. apply pres_serial_manager_write; intros; assumption. Qed.

Lemma static_Thread_join (caller target : thread_id) (t : option Z) :
  preserves (fun w => static w = v) (Thread_join caller target t).
Proof. apply pres_Thread_join; intros; assumption. Qed.

Lemma static_socket_create :
  preserves (fun w => static w = v) (socket_create ;; socket_settimeout 10).
Proof.
  intros w Hw. unfold socket_create, socket_settimeout, the_socket, emit,
    modify, bind. cbn. exact Hw.
Qed.
End Static.

Lemma static_of {A} (c : M A) (w : world) :
  preserves (fun w' => static w' = static w) c ->
  static (snd (c w)) = static w.
Proof. intros H. apply H. reflexivity. Qed.

Lemma static_fields (w w1 : world) :
  static w1 = static w ->
  sock_thread w1 = sock_thread w /\ ser_thread w1 = ser_thread w
  /\ sock_serial_manager w1 = sock_serial_manager w
  /\ ser_socket_manager w1 = ser_socket_manager w.
Proof.
  unfold static. intros H. injection H as H1 H2 H3 H4.
  repeat split; assumption.
Qed.

Lemma wired_static (w w1 : world) :
  static w1 = static w -> wired w -> wired w1.
Proof.
  intros H [H1 H2]. destruct (static_fields _ _ H) as (_ & _ & H3 & H4).
  unfold wired. rewrite H3, H4. split; assumption.
Qed.

(** A step of the socket thread: nothing happens before [start()], and
    afterwards the peer references stay as they are. *)
Lemma sock_step_unstarted (cfg : config) (s : system) :
  sock_thread (sys_world s) <> Running -> sock_step cfg s = s.
Proof.
  intros H. unfold sock_step.
  destruct (sock_thread (sys_world s)); congruence.
Qed.

Lemma sock_step_keeps (cfg : config) (s : system) :
  pc_main (sock_step cfg s) = pc_main s
  /\ ser_socket_manager (sys_world (sock_step cfg s))
     = ser_socket_manager (sys_world s)
  /\ sock_serial_manager (sys_world (sock_step cfg s))
     = sock_serial_manager (sys_world s).
Proof.
  assert (Hgo : forall (c : M unit) (next : sock_pc),
             preserves (fun w' => static w' = static (sys_world s)) c ->
             let s1 :=
               match c (sys_world s) with
               | (Ok _, w1) =>
                 {| sys_world := w1; pc_main := pc_main s; pc_sock := next;
                    pc_ser := pc_ser s |}
               | (Raise e, w1) =>
                 {| sys_world := set_sock_thread Finished w1;
                    pc_main := pc_main s; pc_sock := SockDone (Raise e);
                    pc_ser := pc_ser s |}
               | (Hang, _) => s
               end in
             pc_main s1 = pc_main s
             /\ ser_socket_manager (sys_world s1)
                = ser_socket_manager (sys_world s)
             /\ sock_serial_manager (sys_world s1)
                = sock_serial_manager (sys_world s)).
  { intros c next Hc. pose proof (static_of c _ Hc) as H.
    destruct (c (sys_world s)) as [[[]|e|] w1]; cbn [snd] in H; cbv zeta;
      [| |repeat split];
      destruct (static_fields _ _ H) as (_ & _ & H1 & H2);
      repeat split; assumption. }
  unfold sock_step. destruct (sock_thread (sys_world s)); [repeat split| |repeat split].
  destruct (pc_sock s).
  - apply Hgo. intros w Hw. unfold startup_barrier.
    destruct (sock_serial_manager w); exact Hw.
  - apply Hgo, static_socket_create.
  - apply Hgo, static_socket_connect.
  - apply Hgo. intros w Hw. exact Hw.
  - apply Hgo. apply pres_bind; [apply static_serial_manager_write|].
    intros _ w Hw. exact Hw.
  - destruct (sock_alive (sys_world s)); [|repeat split].
    apply Hgo, static_SocketThread_run_body.
  - repeat split.
Qed.

Lemma sock_step_past_barrier (cfg : config) (s : system) :
  pc_sock (sock_step cfg s) <> S72 ->
  pc_sock s <> S72 \/ sock_serial_manager (sys_world s) = true.
Proof.
  unfold sock_step.
  destruct (sock_thread (sys_world s)); try (intros H; left; exact H).
  destruct (pc_sock s) eqn:Hpc; try (intros _; left; discriminate).
  unfold startup_barrier.
  destruct (sock_serial_manager (sys_world s)); [intros _; right; reflexivity|].
  cbn. intros H. congruence.
Qed.

Lemma ser_step_unstarted (cfg : config) (fuel : nat) (s : system) :
  ser_thread (sys_world s) <> Running -> ser_step cfg fuel s = s.
Proof.
  intros H. unfold ser_step.
  destruct (ser_thread (sys_world s)); congruence.
Qed.

Lemma ser_step_keeps (cfg : config) (fuel : nat) (s : system) :
  pc_main (ser_step cfg fuel s) = pc_main s
  /\ pc_sock (ser_step cfg fuel s) = pc_sock s
  /\ sock_thread (sys_world (ser_step cfg fuel s)) = sock_thread (sys_world s)
  /\ ser_socket_manager (sys_world (ser_step cfg fuel s))
     = ser_socket_manager (sys_world s)
  /\ sock_serial_manager (sys_world (ser_step cfg fuel s))
     = sock_serial_manager (sys_world s).
Proof.
  unfold ser_step.
  destruct (ser_thread (sys_world s)); [repeat split| |repeat split].
  destruct (pc_ser s); [|repeat split].
  destruct (ser_alive (sys_world s) && sp_is_open (ser_serial (sys_world s)));
    [|repeat split].
  pose proof (static_of _ _
                (static_SerialThread_run_body (static (sys_world s)) cfg fuel))
    as H.
  destruct (SerialThread_run_body cfg fuel (sys_world s)) as [[[]|e|] w1];
    cbn [snd] in H; [| |repeat split];
    destruct (static_fields _ _ H) as (H0 & _ & H1 & H2);
    repeat split; assumption.
Qed.

Lemma serial_writes_app (a b : list event) :
  serial_writes (a ++ b) = serial_writes a ++ serial_writes b.
Proof.
  induction a as [|e a IH]; [reflexivity|].
  destruct e; cbn [app serial_writes]; rewrite IH; reflexivity.
Qed.

Lemma find_serial_port_from_writes (scans : list (list port)) :
  forall tr,
    serial_writes (snd (find_serial_port_from scans tr)) = serial_writes tr.
Proof.
  induction scans as [|ports rest IH]; intros tr; cbn [find_serial_port_from].
  - cbn [snd]. rewrite serial_writes_app, app_nil_r. reflexivity.
  - destruct (find is_calculator ports).
    + cbn [snd]. rewrite serial_writes_app, app_nil_r. reflexivity.
    + rewrite IH, serial_writes_app, app_nil_r. reflexivity.
Qed.

(** The constructor of the serial channel opens the port and writes
    nothing to it. *)
Lemma SerialThread_init_quiet (cfg : config) (dev : string) (w : world) :
  quiet w -> quiet (snd (SerialThread_init cfg dev w)).
Proof.
  intros (H1 & H2 & H3). unfold quiet, SerialThread_init, open_serial.
  open_world w. subst.
  destruct (MANUAL_PORT cfg); run.
  - destruct open_q0 as [|[[]|e|] rest]; run;
      rewrite ?serial_writes_app, ?H3; repeat split.
  - pose proof (find_serial_port_from_writes scan_q0 trace0) as Hf.
    destruct (find_serial_port_from scan_q0 trace0) as [[r rest] tr].
    cbn [snd] in Hf. rewrite H3 in Hf.
    destruct r as [p|]; run;
      [destruct open_q0 as [|[[]|e|] rest']; run|];
      rewrite ?serial_writes_app, ?Hf; repeat split.
Qed.

Lemma main_step_invariant (cfg : config) (p : port) (s : system) :
  startup_invariant s -> startup_invariant (main_step cfg p s).
Proof.
  destruct s as [w pm ps pr]. unfold startup_invariant, main_step.
  cbn [pc_main sys_world pc_sock pc_ser]. destruct pm.
  - intros [(H1 & H2 & H3) Hpc]. open_world w. subst. run.
    repeat split; auto.
  - intros [Hq Hpc]. pose proof (SerialThread_init_quiet cfg (device p) w Hq) as H.
    destruct (SerialThread_init cfg (device p) w) as [[[]|e|] w1];
      cbn [snd pc_main sys_world pc_sock] in *; auto.
  - intros [(H1 & H2 & H3) Hpc]. open_world w. subst. repeat split; auto.
  - intros [(H1 & H2 & H3) [Hpc Hm]]. open_world w. subst. repeat split; auto.
  - intros [(H1 & H2 & H3) [Hpc [Hm Hk]]]. open_world w. subst. repeat split; auto.
  - intros [H1 [Hpc [Hm Hk]]]. open_world w. subst. repeat split; auto.
  - intros Hw.
    pose proof (static_of _ w (static_Thread_join (static w) MainThread SerialT None)) as H.
    destruct (Thread_join MainThread SerialT None w) as [[[]|e|] w1];
      cbn [snd pc_main sys_world pc_sock] in *;
      try right; eauto using wired_static.
  - intros Hw.
    pose proof (static_of _ w (static_Thread_join (static w) MainThread SocketT None)) as H.
    destruct (Thread_join MainThread SocketT None w) as [[[]|e|] w1];
      cbn [snd pc_main sys_world pc_sock] in *;
      try right; eauto using wired_static.
  - intros Hw. cbn. right. exact Hw.
  - intros H. exact H.
Qed.

Lemma sock_step_invariant (cfg : config) (s : system) :
  startup_invariant s -> startup_invariant (sock_step cfg s).
Proof.
  intros H.
  destruct (sock_step_keeps cfg s) as (Hpm & Hk & Hm).
  assert (Hun : sock_thread (sys_world s) = Unstarted -> sock_step cfg s = s).
  { intros E. apply sock_step_unstarted. rewrite E. discriminate. }
  assert (Hw : wired (sys_world s) -> wired (sys_world (sock_step cfg s))).
  { intros [A B]. split; congruence. }
  unfold startup_invariant, quiet in *. rewrite Hpm.
  destruct (pc_main s);
    try (assert (E : sock_thread (sys_world s) = Unstarted) by tauto;
         rewrite (Hun E); exact H);
    try (apply Hw; exact H).
  destruct H as [H|H]; [left|right; apply Hw, H].
  assert (E : sock_thread (sys_world s) = Unstarted) by tauto.
  rewrite (Hun E). exact H.
Qed.

Lemma ser_step_invariant (cfg : config) (fuel : nat) (s : system) :
  startup_invariant s -> startup_invariant (ser_step cfg fuel s).
Proof.
  intros H.
  destruct (ser_step_keeps cfg fuel s) as (Hpm & Hps & Hst & Hk & Hm).
  assert (Hun : ser_thread (sys_world s) = Unstarted -> ser_step cfg fuel s = s).
  { intros E. apply ser_step_unstarted. rewrite E. discriminate. }
  assert (Hw : wired (sys_world s) -> wired (sys_world (ser_step cfg fuel s))).
  { intros [A B]. split; congruence. }
  unfold startup_invariant, quiet in *. rewrite Hpm.
  destruct (pc_main s);
    try (assert (E : ser_thread (sys_world s) = Unstarted) by tauto;
         rewrite (Hun E); exact H);
    try (apply Hw; exact H).
  - destruct H as (E & Hp & Hwd). rewrite Hst, Hps. auto.
  - destruct H as [H|H]; [left|right; apply Hw, H].
    assert (E : ser_thread (sys_world s) = Unstarted) by tauto.
    rewrite (Hun E). exact H.
Qed.

Lemma exec_invariant (cfg : config) (p : port) (fuel : nat)
    (schedule : list thread_id) :
  forall s, startup_invariant s ->
            startup_invariant (exec cfg p fuel schedule s).
Proof.
  unfold exec. induction schedule as [|t rest IH]; intros s H; [exact H|].
  cbn [fold_left]. apply IH. destruct t; cbn [step].
  - apply main_step_invariant, H.
  - apply sock_step_invariant, H.
  - apply ser_step_invariant, H.
Qed.

(** C9.  Whatever the scheduler does with the three threads, the socket
    thread is past its barrier (line 72), and so at one of the lines from
    which it writes to the serial channel, only when both peer references
    are set; and as long as the reference to the serial channel is not
    set, nothing has been written to the serial channel. *)
Theorem startup_barrier_holds :
  forall (cfg : config) (p : port) (fuel : nat) (e : environment)
         (schedule : list thread_id),
    let s := exec cfg p fuel schedule (boot e) in
    (pc_sock s <> S72 -> wired (sys_world s))
    /\ (sock_serial_manager (sys_world s) = false ->
        serial_writes (trace (sys_world s)) = []).
Proof.
  intros cfg p fuel e schedule s.
  assert (H : startup_invariant s).
  { apply exec_invariant. cbn. repeat split. }
  unfold startup_invariant in H. unfold wired in *.
  destruct (pc_main s); split; intros Hx;
    repeat match goal with
           | H : _ /\ _ |- _ => destruct H
           | H : quiet _ |- _ => destruct H as (? & ? & ?)
           | H : _ \/ _ |- _ => destruct H
           end; try congruence; try (split; assumption).
Qed.

Lemma startup_barrier_holds_witness :
  let p := {| device := "COM4"; description := "TI-84 Plus CE" |} in
  let e := set_scan_q [[p]] no_answers in
  let s := exec source_config p 3
             [SocketT; MainThread; MainThread; SocketT; MainThread;
              MainThread; SerialT; MainThread; MainThread; SocketT;
              SocketT; SocketT; SocketT; SocketT] (boot e) in
  pc_sock s = S88
  /\ wired (sys_world s)
  /\ serial_writes (trace (sys_world s)) = [bridgeConnected].
Proof.
  cbv zeta. split; [vm_compute; reflexivity|].
  split; [|vm_compute; reflexivity].
  apply (startup_barrier_holds source_config
           {| device := "COM4"; description := "TI-84 Plus CE" |} 3%nat
           (set_scan_q [[ {| device := "COM4";
                             description := "TI-84 Plus CE" |} ]] no_answers)
           [SocketT; MainThread; MainThread; SocketT; MainThread;
            MainThread; SerialT; MainThread; MainThread; SocketT;
            SocketT; SocketT; SocketT; SocketT]).
  vm_compute. discriminate.
Defined.

(* ================================================================== *)
(** ** More on the code: the port locator *)
(* ================================================================== *)

Lemma find_serial_port_from_found (scans : list (list port)) :
  forall tr p rest tr',
    find_serial_port_from scans tr = (Some p, rest, tr') ->
    exists pre ports,
      scans = pre ++ ports :: rest
      /\ Forall (fun ps => find is_calculator ps = None) pre
      /\ find is_calculator ports = Some p
      /\ tr' = tr ++ List.concat
                       (repeat [Sleep 1; Comports] (S (List.length pre))).
Proof.
  induction scans as [|ports0 more IH]; intros tr p rest tr' H;
    cbn [find_serial_port_from] in H; [discriminate|].
  destruct (find is_calculator ports0) as [p0|] eqn:E.
  - injection H as <- <- <-. exists [], ports0. cbn.
    repeat split; [constructor|exact E].
  - destruct (IH _ _ _ _ H) as (pre & ports & -> & Hpre & Hf & ->).
    exists (ports0 :: pre), ports. cbn [app List.length].
    repeat split; [constructor; assumption|exact Hf|].
    rewrite <- app_assoc. reflexivity.
Qed.

Lemma find_first (f : port -> bool) (l : list port) (p : port) :
  find f l = Some p ->
  f p = true
  /\ exists l1 l2, l = l1 ++ p :: l2 /\ Forall (fun x => f x = false) l1.
Proof.
  induction l as [|a l IH]; cbn [find]; [discriminate|].
  destruct (f a) eqn:E.
  - intros H. injection H as <-. split; [exact E|].
    exists [], l. split; [reflexivity|constructor].
  - intros H. destruct (IH H) as (Hp & l1 & l2 & -> & Hl).
    split; [exact Hp|]. exists (a :: l1), l2.
    split; [reflexivity|constructor; assumption].
Qed.

(** [find_serial_port] returns the first port, of the first scan that
    lists one, whose description holds one of the two markers; it has
    slept once before each scan it made. *)
Theorem find_serial_port_first_match :
  forall (w w' : world) (p : port),
    find_serial_port w = (Ok p, w') ->
    is_calculator p = true
    /\ exists (pre : list (list port)) (l1 l2 : list port),
         scan_q (env w) = pre ++ (l1 ++ p :: l2) :: scan_q (env w')
         /\ Forall (fun ps => find is_calculator ps = None) pre
         /\ Forall (fun x => is_calculator x = false) l1
         /\ added w w'
            = List.concat (repeat [Sleep 1; Comports] (S (List.length pre))).
Proof.
  intros w w' p. unfold find_serial_port.
  destruct (find_serial_port_from (scan_q (env w)) (trace w))
    as [[r rest] tr] eqn:E.
  destruct r as [p0|]; [|discriminate]. intros H. injection H as -> <-.
  destruct (find_serial_port_from_found _ _ _ _ _ E)
    as (pre & ports & Hs & Hpre & Hf & ->).
  destruct (find_first _ _ _ Hf) as (Hp & l1 & l2 & -> & Hl1).
  split; [exact Hp|]. exists pre, l1, l2.
  split; [exact Hs|]. split; [exact Hpre|]. split; [exact Hl1|].
  apply added_app. reflexivity.
Qed.

Lemma find_serial_port_first_match_witness :
  let hub := {| device := "COM1"; description := "USB Hub" |} in
  let calc := {| device := "COM4"; description := "TI-84 Plus CE" |} in
  let other := {| device := "COM7"; description := "USB Serial Device (COM7)" |} in
  let w := relaying (set_scan_q [[hub]; [hub; calc; other]; [calc]] no_answers) in
  fst (find_serial_port w) = Ok calc
  /\ is_calculator calc = true.
Proof.
  cbv zeta. split; [reflexivity|].
  apply (find_serial_port_first_match
           (relaying (set_scan_q
              [[ {| device := "COM1"; description := "USB Hub" |} ];
               [ {| device := "COM1"; description := "USB Hub" |};
                 {| device := "COM4"; description := "TI-84 Plus CE" |};
                 {| device := "COM7";
                    description := "USB Serial Device (COM7)" |} ];
               [ {| device := "COM4"; description := "TI-84 Plus CE" |} ]]
              no_answers))
           (snd (find_serial_port
              (relaying (set_scan_q
                 [[ {| device := "COM1"; description := "USB Hub" |} ];
                  [ {| device := "COM1"; description := "USB Hub" |};
                    {| device := "COM4"; description := "TI-84 Plus CE" |};
                    {| device := "COM7";
                       description := "USB Serial Device (COM7)" |} ];
                  [ {| device := "COM4"; description := "TI-84 Plus CE" |} ]]
                 no_answers))))
           {| device := "COM4"; description := "TI-84 Plus CE" |}
           eq_refl).
Defined.

Lemma find_serial_port_from_waiting (scans : list (list port)) :
  forall tr,
    Forall (fun ps => find is_calculator ps = None) scans ->
    find_serial_port_from scans tr
    = (None, [],
       tr ++ List.concat (repeat [Sleep 1; Comports] (List.length scans))
          ++ [Sleep 1]).
Proof.
  induction scans as [|ports more IH]; intros tr H;
    cbn [find_serial_port_from]; [reflexivity|].
  inversion H as [|? ? Hp Hm]; subst. rewrite Hp, (IH _ Hm).
  cbn [List.length repeat List.concat]. rewrite <- !app_assoc. reflexivity.
Qed.

(** [find_serial_port] has no way out but a match: it does not return,
    and does not raise, as long as no scan lists a port with one of the
    markers, and it returns as soon as one does. *)
Theorem find_serial_port_waits :
  forall (w : world),
    (fst (find_serial_port w) = Hang
     <-> Forall (fun ps => Forall (fun x => is_calculator x = false) ps)
                (scan_q (env w)))
    /\ (forall e, fst (find_serial_port w) <> Raise e).
Proof.
  intros w. split.
  - split.
    + unfold find_serial_port.
      destruct (find_serial_port_from (scan_q (env w)) (trace w))
        as [[r rest] tr] eqn:E.
      destruct r as [p|]; [discriminate|]. intros _.
      revert E. generalize (trace w). generalize (scan_q (env w)).
      intros scans. induction scans as [|ports more IH]; intros tr0 E;
        [constructor|].
      cbn [find_serial_port_from] in E.
      destruct (find is_calculator ports) eqn:Ef; [discriminate|].
      constructor; [|eapply IH; exact E].
      apply Forall_forall. intros x Hx.
      destruct (is_calculator x) eqn:Ex; [|reflexivity].
      pose proof (find_none _ _ Ef x Hx). congruence.
    + intros H. unfold find_serial_port.
      rewrite find_serial_port_from_waiting; [reflexivity|].
      eapply Forall_impl; [|exact H]. intros ps Hps.
      destruct (find is_calculator ps) as [p|] eqn:Ef; [|reflexivity].
      destruct (find_some _ _ Ef) as [Hin Hp].
      rewrite Forall_forall in Hps. rewrite (Hps p Hin) in Hp. discriminate.
  - intros e. unfold find_serial_port.
    destruct (find_serial_port_from (scan_q (env w)) (trace w))
      as [[[p|] rest] tr]; discriminate.
Qed.

(* ================================================================== *)
(** ** More on the code: start and stop of the socket channel *)
(* ================================================================== *)

(** When the TCP connect succeeds, [SocketThread.run] has, before its
    first poll, created the socket, set the timeout, connected, set
    [alive] and written the [bridgeConnected] frame to the serial port,
    in that order: a handshake write that fails leaves [run] with
    [alive] already set and the socket connected; one that succeeds is
    followed by the loop. *)
Theorem socket_run_handshake :
  forall (cfg : config) (fuel : nat) (w : world),
    sock_serial_manager w = true ->
    ser_lock w = false ->
    sp_is_open (ser_serial w) = true ->
    next_answer (connect_q (env w)) (Ok tt) = Ok tt ->
    let r := SocketThread_connect cfg w in
    let handshake :=
      [SockCreate; SockSetTimeout 10;
       SockConnect (SERVER_ADDRESS cfg) (SERVER_PORT cfg);
       Acquire SerialLock; SerialWrite bridgeConnected;
       Release SerialLock] in
    let connected :=
      Some {| so_timeout := Some 10%Q; so_connected := true;
              so_closed := false |} in
    (accepts (swrite_q (env w)) = true ->
     fst r = Ok tt
     /\ added w (snd r) = handshake
     /\ sock_alive (snd r) = true
     /\ sock_socket (snd r) = connected
     /\ SocketThread_run cfg fuel w = SocketThread_loop fuel (snd r))
    /\ (forall (e : exn) (sq : list (res Z)),
           swrite_q (env w) = Raise e :: sq ->
           fst r = Raise e
           /\ added w (snd r) = handshake
           /\ sock_alive (snd r) = true
           /\ sock_socket (snd r) = connected
           /\ SocketThread_run cfg fuel w = r).
Proof.
  intros cfg fuel w Hm Hl Ho Hc. cbv zeta.
  assert (Hrun : SocketThread_run cfg fuel w
                 = match SocketThread_connect cfg w with
                   | (Ok _, w1) => SocketThread_loop fuel w1
                   | (Raise e, w1) => (Raise e, w1)
                   | (Hang, w1) => (Hang, w1)
                   end).
  { unfold SocketThread_run, bind, startup_barrier. rewrite Hm.
    reflexivity. }
  split.
  - intros Hacc.
    assert (H : fst (SocketThread_connect cfg w) = Ok tt
                /\ added w (snd (SocketThread_connect cfg w))
                   = [SockCreate; SockSetTimeout 10;
                      SockConnect (SERVER_ADDRESS cfg) (SERVER_PORT cfg);
                      Acquire SerialLock; SerialWrite bridgeConnected;
                      Release SerialLock]
                /\ sock_alive (snd (SocketThread_connect cfg w)) = true
                /\ sock_socket (snd (SocketThread_connect cfg w))
                   = Some {| so_timeout := Some 10%Q; so_connected := true;
                             so_closed := false |}).
    { clear Hrun. open_world w. subst.
      destruct connect_q0 as [|[[]|e|] cq]; try discriminate Hc;
        destruct swrite_q0 as [|[n|e|] sq]; try discriminate Hacc; run;
        (split; [reflexivity|split; [trace_tail; reflexivity|]]);
        split; reflexivity. }
    destruct H as (Hr & Ht & Ha & Hs).
    repeat (split; [assumption|]).
    rewrite Hrun.
    destruct (SocketThread_connect cfg w) as [r w1]. cbn [fst snd] in *.
    subst r. reflexivity.
  - intros e sq Hq.
    assert (H : fst (SocketThread_connect cfg w) = Raise e
                /\ added w (snd (SocketThread_connect cfg w))
                   = [SockCreate; SockSetTimeout 10;
                      SockConnect (SERVER_ADDRESS cfg) (SERVER_PORT cfg);
                      Acquire SerialLock; SerialWrite bridgeConnected;
                      Release SerialLock]
                /\ sock_alive (snd (SocketThread_connect cfg w)) = true
                /\ sock_socket (snd (SocketThread_connect cfg w))
                   = Some {| so_timeout := Some 10%Q; so_connected := true;
                             so_closed := false |}).
    { clear Hrun. open_world w. subst.
      destruct connect_q0 as [|[[]|e'|] cq]; try discriminate Hc; run;
        (split; [reflexivity|split; [trace_tail; reflexivity|]]);
        split; reflexivity. }
    destruct H as (Hr & Ht & Ha & Hs).
    repeat (split; [assumption|]).
    rewrite Hrun.
    destruct (SocketThread_connect cfg w) as [r w1]. cbn [fst snd] in *.
    subst r. reflexivity.
Qed.

Lemma socket_run_handshake_witness :
  let ok := started (set_recv_q [Ok (lit_bytes "DISCONNECT")] no_answers) in
  let ko := started (set_swrite_q [Raise SerialException] no_answers) in
  added ok (snd (SocketThread_connect source_config ok))
  = [SockCreate; SockSetTimeout 10;
     SockConnect "tinethub.tkbstudios.com" 2052;
     Acquire SerialLock; SerialWrite bridgeConnected; Release SerialLock]
  /\ SocketThread_run source_config 1 ko
     = SocketThread_connect source_config ko
  /\ fst (SocketThread_connect source_config ko) = Raise SerialException
  /\ sock_alive (snd (SocketThread_connect source_config ko)) = true.
Proof.
  cbv zeta.
  destruct (socket_run_handshake source_config 1%nat
              (started (set_recv_q [Ok (lit_bytes "DISCONNECT")] no_answers))
              eq_refl eq_refl eq_refl eq_refl) as (Hok & _).
  destruct (Hok eq_refl) as (_ & Ht & _).
  destruct (socket_run_handshake source_config 1%nat
              (started (set_swrite_q [Raise SerialException] no_answers))
              eq_refl eq_refl eq_refl eq_refl) as (_ & Hko).
  destruct (Hko SerialException [] eq_refl) as (Hr & _ & Ha & _ & Hrun).
  split; [exact Ht|]. split; [exact Hrun|]. split; [exact Hr|exact Ha].
Defined.

(** When the TCP connect fails, the exception leaves [SocketThread.run]:
    no frame is written to the serial port, [alive] is not set, and the
    socket that was created is not closed. *)
Theorem socket_run_connect_failure :
  forall (cfg : config) (fuel : nat) (w : world) (e : exn)
         (rest : list (res unit)),
    sock_serial_manager w = true ->
    connect_q (env w) = Raise e :: rest ->
    let r := SocketThread_run cfg fuel w in
    fst r = Raise e
    /\ added w (snd r)
       = [SockCreate; SockSetTimeout 10;
          SockConnect (SERVER_ADDRESS cfg) (SERVER_PORT cfg)]
    /\ sock_alive (snd r) = sock_alive w
    /\ sock_socket (snd r)
       = Some {| so_timeout := Some 10%Q; so_connected := false;
                 so_closed := false |}.
Proof.
  intros cfg fuel w e rest Hm Hc. unfold SocketThread_run.
  open_world w. subst. run.
  split; [reflexivity|]. split; [trace_tail; reflexivity|].
  split; reflexivity.
Qed.

Lemma socket_run_connect_failure_witness :
  let w := started (set_connect_q [Raise SocketTimeout] no_answers) in
  fst (SocketThread_run source_config 3 w) = Raise SocketTimeout
  /\ serial_writes (added w (snd (SocketThread_run source_config 3 w))) = [].
Proof.
  cbv zeta.
  destruct (socket_run_connect_failure source_config 3%nat
              (started (set_connect_q [Raise SocketTimeout] no_answers))
              SocketTimeout [] eq_refl eq_refl) as (Hr & Ht & _).
  split; [exact Hr|]. rewrite Ht. reflexivity.
Defined.

(** A [recv] that fails with anything but a timeout makes the loop call
    [stop()]: [alive] becomes false, the [internetDisconnected] frame is
    written once if the serial peer is alive, and when that write returns
    (or is not made) the socket is closed once and the turn ends in the
    [RuntimeError] of the thread joining itself; the received bytes are
    never looked at. *)
Theorem socket_recv_failure_stops :
  forall (w : world) (e : exn) (q : list (res bytes)) (so : socket_obj),
    recv_q (env w) = Raise e :: q ->
    e <> SocketTimeout ->
    sock_socket w = Some so ->
    socket_usable so = true ->
    sock_serial_manager w = true ->
    ser_lock w = false ->
    let r := SocketThread_run_body w in
    sock_alive (snd r) = false
    /\ serial_writes (added w (snd r))
       = (if ser_alive w then [internetDisconnected] else [])
    /\ (ser_alive w = false
        \/ (sp_is_open (ser_serial w) = true
            /\ accepts (swrite_q (env w)) = true) ->
        fst r = Raise RuntimeError
        /\ closes (added w (snd r)) = 1%nat).
Proof.
  intros w e q so Hq He Hs Hu Hm Hl. unfold socket_usable in Hu.
  open_world w. subst.
  destruct e; try congruence; run;
    destruct ser_alive0, sock_thread0; run;
    try (destruct (sp_is_open ser_serial0) eqn:Ho; run;
         [destruct swrite_q0 as [|[n| |] ?]; run|]);
    (split; [reflexivity|split; [trace_tail; reflexivity|]]);
    (intros [Hf|[Ho' Hacc]]; try discriminate);
    (split; [|trace_tail]); reflexivity.
Qed.

Lemma socket_recv_failure_stops_witness :
  let w := relaying (set_recv_q [Raise OSError] no_answers) in
  sock_alive (snd (SocketThread_run_body w)) = false
  /\ serial_writes (added w (snd (SocketThread_run_body w)))
     = [internetDisconnected].
Proof.
  cbv zeta.
  assert (Hne : OSError <> SocketTimeout) by discriminate.
  destruct (socket_recv_failure_stops
              (relaying (set_recv_q [Raise OSError] no_answers)) OSError []
              {| so_timeout := Some 10%Q; so_connected := true;
                 so_closed := false |}
              eq_refl Hne eq_refl eq_refl eq_refl eq_refl) as (Ha & Hw & _).
  split; [exact Ha|exact Hw].
Defined.

Lemma bind_returns {A B} (c : M A) (k : A -> M B) (w : world) (b : B) :
  fst (bind c k w) = Ok b ->
  exists a w1, c w = (Ok a, w1) /\ fst (k a w1) = Ok b.
Proof.
  unfold bind. destruct (c w) as [[a|e|] w1]; cbn [fst]; try discriminate.
  intros H. exists a, w1. split; [reflexivity|exact H].
Qed.

Lemma join_self_fails (t : thread_id) (timeout : option Z) (w : world) :
  exists e, fst (Thread_join t t timeout w) = Raise e.
Proof.
  unfold Thread_join. exists RuntimeError.
  destruct (thread_state_of t w); [reflexivity| |];
    destruct t; reflexivity.
Qed.

(** [stop()] called by the channel's own thread, as [SocketThread.run]
    does, never returns: the final [self.join()] is a thread joining
    itself.  For the serial channel the call always ends in
    [RuntimeError], with [alive] already false. *)
Theorem stop_from_own_thread :
  forall (w : world),
    (forall r : unit, fst (SocketThread_stop SocketT w) <> Ok r)
    /\ sock_alive (snd (SocketThread_stop SocketT w)) = false
    /\ fst (SerialThread_stop SerialT w) = Raise RuntimeError
    /\ ser_alive (snd (SerialThread_stop SerialT w)) = false.
Proof.
  intros w. split; [|split; [|split]].
  - intros r H. unfold SocketThread_stop in H.
    repeat match type of H with
           | fst (bind _ _ _) = Ok _ =>
             apply bind_returns in H; destruct H as (? & ? & _ & H)
           end.
    match type of H with
    | fst (Thread_join _ _ _ ?w1) = _ =>
      destruct (join_self_fails SocketT None w1) as [e He]
    end. congruence.
  - unfold SocketThread_stop.
    assert (Hrest : preserves (fun w' => sock_alive w' = false)
              (peer_alive <- serial_manager_alive ;;
               (if peer_alive
                then serial_manager_write internetDisconnected ;; ret tt
                else ret tt) ;;
               socket_close ;;
               Thread_join SocketT SocketT None)).
    { apply pres_bind; [apply pres_serial_manager_alive|intros b].
      apply pres_bind;
        [destruct b;
         [apply pres_bind;
          [apply pres_serial_manager_write|intros ?; apply pres_ret]
         |apply pres_ret]
        |intros _; apply pres_bind;
           [apply pres_socket_close|intros _; apply pres_Thread_join]];
        intros; assumption. }
    unfold bind at 1. unfold modify at 1. apply Hrest. reflexivity.
  - open_world w. destruct ser_thread0; run; reflexivity.
  - open_world w. destruct ser_thread0; run; reflexivity.
Qed.

(** [SocketThread.stop()] before the channel is usable: without the peer
    reference it raises [AttributeError] right after clearing [alive];
    with the peer reference but no socket yet, it has already written the
    [internetDisconnected] frame when [self.socket.close()] raises
    [AttributeError]. *)
Theorem socket_stop_too_early :
  (forall (caller : thread_id) (w : world),
      sock_serial_manager w = false ->
      fst (SocketThread_stop caller w) = Raise AttributeError
      /\ snd (SocketThread_stop caller w) = set_sock_alive false w)
  /\
  (forall (caller : thread_id) (w : world),
      sock_serial_manager w = true ->
      sock_socket w = None ->
      ser_alive w = true ->
      ser_lock w = false ->
      sp_is_open (ser_serial w) = true ->
      accepts (swrite_q (env w)) = true ->
      let r := SocketThread_stop caller w in
      fst r = Raise AttributeError
      /\ added w (snd r)
         = [Acquire SerialLock; SerialWrite internetDisconnected;
            Release SerialLock]).
Proof.
  split.
  - intros caller w Hm. open_world w. subst. run. split; reflexivity.
  - intros caller w Hm Hs Ha Hl Ho Hacc. open_world w. subst. run.
    destruct swrite_q0 as [|[n| |] rest]; try discriminate Hacc; run;
      (split; [reflexivity|trace_tail; reflexivity]).
Qed.

Lemma socket_stop_too_early_witness :
  let w := started no_answers in
  fst (SocketThread_stop MainThread w) = Raise AttributeError
  /\ serial_writes (added w (snd (SocketThread_stop MainThread w)))
     = [internetDisconnected].
Proof.
  cbv zeta.
  destruct (proj2 socket_stop_too_early MainThread (started no_answers)
              eq_refl eq_refl eq_refl eq_refl eq_refl eq_refl) as [Hr Ht].
  split; [exact Hr|]. rewrite Ht. reflexivity.
Defined.

(** The lock of a channel is free again after every [write] that comes
    back, with a count or with an exception of the medium or of a missing
    handle; a [write] that finds the lock taken waits and does nothing. *)
Theorem write_releases_lock :
  (forall (data : bytes) (w : world),
      sock_lock w = false ->
      fst (SocketThread_write data w) <> Hang ->
      sock_lock (snd (SocketThread_write data w)) = false)
  /\ (forall (data : bytes) (w : world),
         ser_lock w = false ->
         fst (SerialThread_write data w) <> Hang ->
         ser_lock (snd (SerialThread_write data w)) = false)
  /\ (forall (data : bytes) (w : world),
         sock_lock w = true -> SocketThread_write data w = (Hang, w))
  /\ (forall (data : bytes) (w : world),
         ser_lock w = true -> SerialThread_write data w = (Hang, w)).
Proof.
  split; [|split; [|split]].
  - intros data w Hl. open_world w. subst. run.
    destruct sock_socket0 as [so|]; run; [|reflexivity].
    destruct (so_connected so && negb (so_closed so));
      [destruct send_q0 as [|[n|e|] rest]|]; run;
      try reflexivity; congruence.
  - intros data w Hl. open_world w. subst. run.
    destruct (sp_is_open ser_serial0);
      [destruct swrite_q0 as [|[n|e|] rest]|]; run;
      try reflexivity; congruence.
  - intros data w Hl. open_world w. subst. reflexivity.
  - intros data w Hl. open_world w. subst. reflexivity.
Qed.

Lemma write_releases_lock_witness :
  let w := relaying (set_send_q [Raise OSError] no_answers) in
  fst (SocketThread_write (lit_bytes "ping") w) = Raise OSError
  /\ sock_lock (snd (SocketThread_write (lit_bytes "ping") w)) = false.
Proof.
  cbv zeta. split; [reflexivity|].
  apply (proj1 write_releases_lock (lit_bytes "ping")
           (relaying (set_send_q [Raise OSError] no_answers)) eq_refl).
  discriminate.
Defined.

(* ================================================================== *)
(** ** More on the code: whole sessions of the two loops *)
(* ================================================================== *)

(** One turn of the socket loop on a timeout or on a payload. *)
Lemma socket_turn (so : socket_obj) (w : world) (o : option bytes)
    (q : list (res bytes)) :
  socket_relaying so w ->
  recv_q (env w) = polled o :: q ->
  match o with Some d => relayable d | None => True end ->
  exists w1 l,
    SocketThread_run_body w = (Ok tt, w1)
    /\ socket_relaying so w1
    /\ recv_q (env w1) = q
    /\ trace w1 = trace w ++ l
    /\ serial_writes l = payloads [o].
Proof.
  intros (Ha & Hs & Hu & Hm & Hp & Hl & Ho & Hq0) Hq Hrel.
  unfold socket_relaying, socket_usable in *.
  destruct o as [d|]; cbn [polled] in Hq.
  - destruct Hrel as (Hne & s & Hd & Hdis).
    pose proof (utf8_roundtrip _ _ Hd) as He.
    pose proof (not_empty_bytes _ Hne) as Hb.
    open_world w. subst. run. eexists. eexists.
    split; [reflexivity|]. cbn. rewrite <- !app_assoc.
    repeat split; assumption.
  - open_world w. subst. run. eexists. eexists.
    split; [reflexivity|]. cbn.
    repeat split; assumption.
Qed.

Lemma socket_session (script : list (option bytes)) :
  forall (so : socket_obj) (w : world) (rest : list (res bytes)),
    socket_relaying so w ->
    Forall (fun o => match o with Some d => relayable d | None => True end)
           script ->
    recv_q (env w) = map polled script ++ rest ->
    exists w1 l,
      (forall n, SocketThread_loop (List.length script + n) w
                 = SocketThread_loop n w1)
      /\ trace w1 = trace w ++ l
      /\ serial_writes l = payloads script
      /\ recv_q (env w1) = rest
      /\ socket_relaying so w1.
Proof.
  induction script as [|o script IH]; intros so w rest Hrel Hall Hq.
  - exists w, []. rewrite app_nil_r.
    split; [reflexivity|]. split; [reflexivity|]. split; [reflexivity|].
    split; [exact Hq|exact Hrel].
  - inversion Hall as [|? ? Ho Hall']; subst. cbn [map app] in Hq.
    destruct (socket_turn so w o _ Hrel Hq Ho)
      as (w1 & l1 & Hb & Hrel1 & Hq1 & Ht1 & Hw1).
    destruct (IH so w1 rest Hrel1 Hall' Hq1)
      as (w2 & l2 & Hloop & Ht2 & Hw2 & Hq2 & Hrel2).
    exists w2, (l1 ++ l2). split; [|split; [|split; [|split; assumption]]].
    + intros n. cbn [List.length Nat.add SocketThread_loop].
      destruct Hrel as (Ha & _). rewrite Ha, Hb. apply Hloop.
    + rewrite Ht2, Ht1, app_assoc. reflexivity.
    + rewrite serial_writes_app, Hw1, Hw2.
      unfold payloads. cbn [flat_map]. rewrite app_nil_r. reflexivity.
Qed.

(** Along a session of the socket loop in which the server sends
    payloads and, in between, polls time out, the serial port receives
    exactly the payloads, unchanged and in the order received; the
    timeouts leave no mark, and the loop is still running afterwards. *)
Theorem socket_session_relays :
  forall (script : list (option bytes)) (so : socket_obj) (w : world)
         (rest : list (res bytes)),
    socket_relaying so w ->
    Forall (fun o => match o with Some d => relayable d | None => True end)
           script ->
    recv_q (env w) = map polled script ++ rest ->
    exists w1,
      (forall n, SocketThread_loop (List.length script + n) w
                 = SocketThread_loop n w1)
      /\ serial_writes (added w w1) = payloads script
      /\ recv_q (env w1) = rest
      /\ socket_relaying so w1.
Proof.
  intros script so w rest Hrel Hall Hq.
  destruct (socket_session script so w rest Hrel Hall Hq)
    as (w1 & l & Hloop & Ht & Hw & Hq1 & Hrel1).
  exists w1. rewrite (added_app _ _ _ Ht).
  split; [exact Hloop|]. split; [exact Hw|]. split; [exact Hq1|exact Hrel1].
Qed.

Lemma socket_session_relays_witness :
  exists w1,
    serial_writes
      (added (relaying (set_recv_q [Ok (lit_bytes "a"); Raise SocketTimeout;
                                    Ok (lit_bytes "b")] no_answers)) w1)
    = [lit_bytes "a"; lit_bytes "b"].
Proof.
  assert (Hrel : socket_relaying
            {| so_timeout := Some 10%Q; so_connected := true;
               so_closed := false |}
            (relaying (set_recv_q [Ok (lit_bytes "a"); Raise SocketTimeout;
                                   Ok (lit_bytes "b")] no_answers))).
  { unfold socket_relaying. repeat split. }
  assert (Hall : Forall
            (fun o => match o with Some d => relayable d | None => True end)
            [Some (lit_bytes "a"); None; Some (lit_bytes "b")]).
  { constructor; [split; [discriminate|exists (lit "a"); split; reflexivity]|].
    constructor; [exact Logic.I|].
    constructor; [split; [discriminate|exists (lit "b"); split; reflexivity]|].
    constructor. }
  destruct (socket_session_relays
              [Some (lit_bytes "a"); None; Some (lit_bytes "b")]
              _ _ [] Hrel Hall eq_refl) as (w1 & _ & Hw & _).
  exists w1. exact Hw.
Defined.

(** One turn of the serial loop on a read that brings clean data, or
    none. *)
Lemma serial_turn (cfg : config) (so : socket_obj) (w : world)
    (P : bytes) (q : list (res bytes)) :
  serial_relaying so w ->
  read_q (env w) = Ok P :: q ->
  clean P ->
  exists w1 l,
    (forall fuel, SerialThread_run_body cfg fuel w = (Ok tt, w1))
    /\ serial_relaying so w1
    /\ read_q (env w1) = q
    /\ trace w1 = trace w ++ l
    /\ socket_sends l = filter truthy [P].
Proof.
  intros (Ha & Ho & Hm & Hl & Hs & Hu & Hq0) Hq (Hn0 & Hsl & s & Hd).
  unfold serial_relaying, socket_usable in *.
  assert (Hr : (data <- serial_read ;; ret (Some data)) w
               = (Ok (Some P),
                  set_env (set_read_q q (env w))
                          (set_trace (trace w ++ [SerialRead]) w))).
  { open_world w. subst. run. reflexivity. }
  destruct (truthy P) eqn:Ht.
  - pose proof (strip_unchanged _ _ Hd Hn0 Hsl) as Hstrip.
    pose proof (utf8_roundtrip _ _ Hd) as Hrt. rewrite <- Hstrip in Hrt.
    assert (Hbody : forall fuel,
               SerialThread_run_body cfg fuel w
               = (emit (LogDebug s) ;; socket_manager_write P ;; ret tt)
                   (set_env (set_read_q q (env w))
                            (set_trace (trace w ++ [SerialRead]) w))).
    { intros fuel. unfold SerialThread_run_body.
      unfold bind at 1, try_except. rewrite Hr.
      rewrite (SerialThread_on_data_forwards _ _ _ _ Ht Hd Hrt), Hstrip.
      reflexivity. }
    clear Hr. open_world w. subst. eexists. eexists.
    split; [intros fuel; rewrite Hbody; run; reflexivity|].
    cbn. rewrite ?Ht, <- ?app_assoc. repeat split; assumption.
  - assert (Hbody : forall fuel,
               SerialThread_run_body cfg fuel w
               = (Ok tt, set_env (set_read_q q (env w))
                           (set_trace (trace w ++ [SerialRead]) w))).
    { intros fuel. unfold SerialThread_run_body.
      unfold bind at 1, try_except. rewrite Hr.
      unfold SerialThread_on_data. rewrite Ht. reflexivity. }
    clear Hr. open_world w. subst. eexists. eexists.
    split; [intros fuel; rewrite Hbody; reflexivity|].
    cbn. rewrite ?Ht. repeat split; assumption.
Qed.

Lemma serial_session (cfg : config) (reads : list bytes) :
  forall (so : socket_obj) (w : world) (rest : list (res bytes)),
    serial_relaying so w ->
    Forall clean reads ->
    read_q (env w) = map Ok reads ++ rest ->
    exists w1 l,
      (forall n, SerialThread_loop cfg (List.length reads + n) w
                 = SerialThread_loop cfg n w1)
      /\ trace w1 = trace w ++ l
      /\ socket_sends l = filter truthy reads
      /\ read_q (env w1) = rest
      /\ serial_relaying so w1.
Proof.
  induction reads as [|P reads IH]; intros so w rest Hrel Hall Hq.
  - exists w, []. rewrite app_nil_r.
    split; [reflexivity|]. split; [reflexivity|]. split; [reflexivity|].
    split; [exact Hq|exact Hrel].
  - inversion Hall as [|? ? HP Hall']; subst. cbn [map app] in Hq.
    destruct (serial_turn cfg so w P _ Hrel Hq HP)
      as (w1 & l1 & Hb & Hrel1 & Hq1 & Ht1 & Hw1).
    destruct (IH so w1 rest Hrel1 Hall' Hq1)
      as (w2 & l2 & Hloop & Ht2 & Hw2 & Hq2 & Hrel2).
    exists w2, (l1 ++ l2). split; [|split; [|split; [|split; assumption]]].
    + intros n. cbn [List.length Nat.add SerialThread_loop].
      destruct Hrel as (Ha & Ho & _). rewrite Ha, Ho, Hb. apply Hloop.
    + rewrite Ht2, Ht1, app_assoc. reflexivity.
    + assert (Hsa : forall a b, socket_sends (a ++ b)
                                = socket_sends a ++ socket_sends b).
      { intros a b. induction a as [|e a IHa]; [reflexivity|].
        destruct e; cbn [app socket_sends]; rewrite IHa; reflexivity. }
      rewrite Hsa, Hw1, Hw2. cbn [filter].
      destruct (truthy P); reflexivity.
Qed.

(** Along a session of the serial loop in which every read brings clean
    data or nothing, the server receives exactly the non-empty reads,
    unchanged and in the order read, and the loop is still running
    afterwards. *)
Theorem serial_session_relays :
  forall (cfg : config) (reads : list bytes) (so : socket_obj) (w : world)
         (rest : list (res bytes)),
    serial_relaying so w ->
    Forall clean reads ->
    read_q (env w) = map Ok reads ++ rest ->
    exists w1,
      (forall n, SerialThread_loop cfg (List.length reads + n) w
                 = SerialThread_loop cfg n w1)
      /\ socket_sends (added w w1) = filter truthy reads
      /\ read_q (env w1) = rest
      /\ serial_relaying so w1.
Proof.
  intros cfg reads so w rest Hrel Hall Hq.
  destruct (serial_session cfg reads so w rest Hrel Hall Hq)
    as (w1 & l & Hloop & Ht & Hw & Hq1 & Hrel1).
  exists w1. rewrite (added_app _ _ _ Ht).
  split; [exact Hloop|]. split; [exact Hw|]. split; [exact Hq1|exact Hrel1].
Qed.

Lemma clean_ascii (s : string) :
  existsb (Byte.eqb x00) (lit_bytes s) = false ->
  contains Byte.eqb (lit_bytes "/0") (lit_bytes s) = false ->
  utf8_decode (lit_bytes s) = Some (lit s) ->
  clean (lit_bytes s).
Proof.
  intros H0 H1 H2. split; [apply not_in_bytes, H0|].
  split; [exact H1|]. exists (lit s). exact H2.
Qed.

Lemma serial_session_relays_witness :
  exists w1,
    socket_sends
      (added (relaying (set_read_q [Ok (lit_bytes "1+1"); Ok [];
                                    Ok (lit_bytes "2")] no_answers)) w1)
    = [lit_bytes "1+1"; lit_bytes "2"].
Proof.
  assert (Hrel : serial_relaying
            {| so_timeout := Some 10%Q; so_connected := true;
               so_closed := false |}
            (relaying (set_read_q [Ok (lit_bytes "1+1"); Ok [];
                                   Ok (lit_bytes "2")] no_answers))).
  { unfold serial_relaying. repeat split. }
  assert (Hall : Forall clean [lit_bytes "1+1"; []; lit_bytes "2"]).
  { constructor; [apply clean_ascii; reflexivity|].
    constructor; [apply (clean_ascii ""); reflexivity|].
    constructor; [apply clean_ascii; reflexivity|constructor]. }
  destruct (serial_session_relays source_config
              [lit_bytes "1+1"; []; lit_bytes "2"]
              _ _ [] Hrel Hall eq_refl) as (w1 & _ & Hw & _).
  exists w1. exact Hw.
Defined.

(* ================================================================== *)
(** ** More on the code: what the serial reader sends, and reconnects *)
(* ================================================================== *)

Lemma byte_val_of_Z (z : Z) : 0 <= z <= 255 -> byte_val (byte_of_Z z) = z.
Proof.
  intros Hz. unfold byte_of_Z, byte_val.
  destruct (Byte.of_N (Z.to_N z)) as [b|] eqn:E.
  - apply Byte.to_of_N in E. rewrite E. lia.
  - apply Byte.of_N_None_iff in E. lia.
Qed.

Lemma byte_of_Z_not_nul (z : Z) : 1 <= z <= 255 -> byte_of_Z z <> x00.
Proof.
  intros Hz E. pose proof (byte_val_of_Z z) as H. rewrite E in H.
  change (byte_val x00) with 0 in H. lia.
Qed.

Lemma not_nul_bytes (vals : list Z) :
  Forall (fun v => 1 <= v <= 255) vals -> ~ In x00 (map byte_of_Z vals).
Proof.
  induction 1 as [|v vals Hv _ IH]; [intros []|].
  cbn [map In]. intros [E|Hin]; [|exact (IH Hin)].
  exact (byte_of_Z_not_nul v Hv E).
Qed.

Lemma encode_cp_no_nul (c : Z) (b : bytes) :
  encode_cp c = Some b -> c <> 0 -> ~ In x00 b.
Proof.
  unfold encode_cp.
  destruct (Z.ltb_spec c 0); [discriminate|].
  destruct (Z.ltb_spec c 128).
  { intros E Hc. injection E as <-. apply (not_nul_bytes [c]).
    repeat constructor; lia. }
  destruct (Z.ltb_spec c 2048).
  { intros E Hc. injection E as <-.
    apply (not_nul_bytes [192 + c / 64; 128 + c mod 64]).
    repeat constructor; Z.div_mod_to_equations; lia. }
  destruct (Z.ltb_spec c 65536).
  { destruct (is_surrogate c); [discriminate|].
    intros E Hc. injection E as <-.
    apply (not_nul_bytes [224 + c / 4096; 128 + (c / 64) mod 64;
                          128 + c mod 64]).
    repeat constructor; Z.div_mod_to_equations; lia. }
  destruct (Z.leb_spec c 1114111); [|discriminate].
  intros E Hc. injection E as <-.
  apply (not_nul_bytes [240 + c / 262144; 128 + (c / 4096) mod 64;
                        128 + (c / 64) mod 64; 128 + c mod 64]).
  repeat constructor; Z.div_mod_to_equations; lia.
Qed.

Lemma utf8_encode_no_nul (s : str) :
  forall out, utf8_encode s = Some out -> ~ In 0 s -> ~ In x00 out.
Proof.
  induction s as [|c t IH]; intros out E Hs.
  - injection E as <-. intros [].
  - rewrite utf8_encode_cons in E.
    destruct (encode_cp c) as [b|] eqn:Ec; [|discriminate].
    destruct (utf8_encode t) as [r|] eqn:Et; [|discriminate].
    injection E as <-. intros Hin. apply in_app_or in Hin.
    destruct Hin as [Hin|Hin].
    + revert Hin. eapply encode_cp_no_nul; [exact Ec|].
      intros ->. apply Hs. left. reflexivity.
    + revert Hin. apply (IH r eq_refl). intros H. apply Hs. right. exact H.
Qed.

Lemma replace_nul_removes (s : str) :
  forall k, ~ In 0 (replace_from Z.eqb [0] [] k s).
Proof.
  induction s as [|c t IH]; intros k; cbn [replace_from]; [intros []|].
  destruct k; [|apply IH].
  cbn [starts_with]. destruct (Z.eqb_spec 0 c) as [E|E]; cbn [andb app].
  - apply IH.
  - intros [H|H]; [congruence|]. revert H. apply IH.
Qed.

Lemma strip_no_nul (s : str) : ~ In 0 (strip_delimiter s).
Proof. unfold strip_delimiter, str_replace. apply replace_nul_removes. Qed.

(** Whatever a non-failing serial read brings, no null byte goes to the
    server: all that the turn hands to [socket.send] is free of the
    delimiter. *)
Theorem serial_never_sends_nul :
  forall (cfg : config) (fuel : nat) (w : world) (data : bytes)
         (q : list (res bytes)),
    read_q (env w) = Ok data :: q ->
    sp_is_open (ser_serial w) = true ->
    Forall (fun d => ~ In x00 d)
           (socket_sends (added w (snd (SerialThread_run_body cfg fuel w)))).
Proof.
  intros cfg fuel w data q Hq Ho.
  unfold SerialThread_run_body. unfold bind at 1, try_except.
  assert (Hr : (data <- serial_read ;; ret (Some data)) w
               = (Ok (Some data),
                  set_env (set_read_q q (env w))
                          (set_trace (trace w ++ [SerialRead]) w))).
  { open_world w. subst. run. reflexivity. }
  rewrite Hr. clear Hr.
  destruct (truthy data) eqn:Ht;
    [|unfold SerialThread_on_data; rewrite Ht; open_world w; subst; run;
      trace_tail; constructor].
  destruct (utf8_decode data) as [s|] eqn:Hd.
  - destruct (strip_encodes _ _ Hd) as [out He].
    rewrite (SerialThread_on_data_forwards _ _ _ _ Ht Hd He).
    pose proof (utf8_encode_no_nul _ _ He (strip_no_nul s)) as Hout.
    open_world w. subst. run.
    destruct ser_socket_manager0; run; [|trace_tail; constructor].
    destruct sock_lock0; run; [trace_tail; constructor|].
    destruct sock_socket0 as [so|]; run; [|trace_tail; constructor].
    destruct (so_connected so && negb (so_closed so));
      [destruct send_q0 as [|[n|e|] rest]|]; run; trace_tail;
      repeat constructor; exact Hout.
  - unfold SerialThread_on_data. rewrite Ht, (truthy_not_empty _ Ht).
    unfold decode. rewrite Hd. open_world w. subst. run.
    trace_tail. constructor.
Qed.

Lemma serial_never_sends_nul_witness :
  let w := relaying (set_read_q [Ok ([x00] ++ lit_bytes "a" ++ [x00; x00]
                                      ++ lit_bytes "b" ++ [x00])]
                       no_answers) in
  socket_sends (added w (snd (SerialThread_run_body source_config 1 w)))
  = [lit_bytes "ab"]
  /\ Forall (fun d => ~ In x00 d)
       (socket_sends (added w (snd (SerialThread_run_body source_config 1 w)))).
Proof.
  cbv zeta. split; [reflexivity|].
  apply (serial_never_sends_nul source_config 1%nat
           (relaying (set_read_q [Ok ([x00] ++ lit_bytes "a" ++ [x00; x00]
                                       ++ lit_bytes "b" ++ [x00])]
                        no_answers))
           ([x00] ++ lit_bytes "a" ++ [x00; x00] ++ lit_bytes "b" ++ [x00])
           [] eq_refl eq_refl).
Defined.

(** The retry loop with the port chosen by hand: no discovery is made. *)
Lemma SerialThread_reconnect_manual (cfg : config) (k : nat) :
  MANUAL_PORT cfg = true ->
  forall (fuel : nat) (w : world),
    ser_lock w = false ->
    open_q (env w) = repeat (Raise SerialException) k ->
    accepts (swrite_q (env w)) = true ->
    (k < fuel)%nat ->
    let r := SerialThread_reconnect cfg fuel w in
    fst r = Ok tt
    /\ trace (snd r)
       = trace w
         ++ List.concat
              (repeat [Sleep 1; SerialOpen (ser_serial_port w) 9600 3] (S k))
         ++ [Acquire SerialLock; SerialWrite bridgeConnected;
             Release SerialLock]
    /\ ser_serial (snd r)
       = {| sp_device := ser_serial_port w; sp_is_open := true |}
    /\ scan_q (env (snd r)) = scan_q (env w).
Proof.
  intros Hman. induction k as [|k IH]; intros fuel w Hl Hoq Hacc Hk;
    (destruct fuel as [|n]; [inversion Hk|]).
  - open_world w. subst. run.
    destruct swrite_q0 as [|[m| |] rest]; try discriminate Hacc; run;
      rewrite <- ?app_assoc; repeat split.
  - assert (Hstep : exists w1,
               SerialThread_reconnect cfg (S n) w
               = SerialThread_reconnect cfg n w1
               /\ trace w1
                  = trace w ++ [Sleep 1; SerialOpen (ser_serial_port w) 9600 3]
               /\ ser_lock w1 = false
               /\ open_q (env w1) = repeat (Raise SerialException) k
               /\ swrite_q (env w1) = swrite_q (env w)
               /\ ser_serial_port w1 = ser_serial_port w
               /\ scan_q (env w1) = scan_q (env w)).
    { open_world w. subst. eexists. split; [run; reflexivity|].
      cbn. rewrite <- ?app_assoc. repeat split. }
    destruct Hstep as (w1 & -> & Ht & Hl1 & Ho1 & Hw1 & Hp1 & Hs1).
    destruct (IH n w1 Hl1 Ho1) as (Hr & Htr & Hser & Hsc);
      [rewrite Hw1; exact Hacc|apply PeanoNat.lt_S_n, Hk|].
    cbv zeta. rewrite Hr, Htr, Hser, Hsc, Ht, Hp1, Hs1.
    cbn [repeat List.concat]. rewrite <- !app_assoc. repeat split.
Qed.

(** With the port chosen by hand ([MANUAL_PORT]), a failed serial read
    with reconnect enabled reopens the port the channel was created
    with, turn after turn until the open succeeds, and never runs the
    discovery: no scan is made. *)
Theorem serial_reconnect_manual_port :
  forall (cfg : config) (k fuel : nat) (w : world) (e : exn)
         (q : list (res bytes)),
    ENABLE_RECONNECT cfg = true ->
    MANUAL_PORT cfg = true ->
    sp_is_open (ser_serial w) = true ->
    ser_lock w = false ->
    read_q (env w) = Raise e :: q ->
    open_q (env w) = repeat (Raise SerialException) k ->
    accepts (swrite_q (env w)) = true ->
    (k < fuel)%nat ->
    let r := SerialThread_run_body cfg fuel w in
    fst r = Ok tt
    /\ added w (snd r)
       = SerialRead
         :: List.concat
              (repeat [Sleep 1; SerialOpen (ser_serial_port w) 9600 3] (S k))
         ++ [Acquire SerialLock; SerialWrite bridgeConnected;
             Release SerialLock]
    /\ ser_serial (snd r)
       = {| sp_device := ser_serial_port w; sp_is_open := true |}
    /\ scan_q (env (snd r)) = scan_q (env w).
Proof.
  intros cfg k fuel w e q Hrec Hman Ho Hl Hq Hoq Hacc Hk.
  set (w1 := set_env (set_read_q q (env w))
               (set_trace (trace w ++ [SerialRead]) w)).
  assert (Hb : SerialThread_run_body cfg fuel w
               = (fst (SerialThread_reconnect cfg fuel w1),
                  snd (SerialThread_reconnect cfg fuel w1))).
  { subst w1. clear Hoq Hacc. open_world w. subst. run.
    match goal with
    | |- context [SerialThread_reconnect cfg fuel ?x] =>
      destruct (SerialThread_reconnect cfg fuel x) as [[[]|?|] ?]
    end; reflexivity. }
  destruct (SerialThread_reconnect_manual cfg k Hman fuel w1)
    as (Hr & Htr & Hser & Hsc);
    [exact Hl|exact Hoq|exact Hacc|exact Hk|].
  cbv zeta. rewrite Hb, Hr. cbn [fst snd].
  split; [reflexivity|]. split.
  { apply added_app. rewrite Htr. subst w1.
    cbn [trace set_env set_trace ser_serial_port].
    rewrite <- !app_assoc. reflexivity. }
  split; [exact Hser|exact Hsc].
Qed.

Lemma serial_reconnect_manual_port_witness :
  let cfg := {| SERVER_ADDRESS := "tinethub.tkbstudios.com";
                SERVER_PORT := 2052; SERIAL := true; DEBUG := true;
                MANUAL_PORT := true; ENABLE_RECONNECT := true |} in
  let w := relaying (set_read_q [Raise SerialException]
                       (set_open_q [Raise SerialException] no_answers)) in
  added w (snd (SerialThread_run_body cfg 2 w))
  = [SerialRead; Sleep 1; SerialOpen "COM3" 9600 3;
     Sleep 1; SerialOpen "COM3" 9600 3;
     Acquire SerialLock; SerialWrite bridgeConnected; Release SerialLock].
Proof.
  cbv zeta.
  apply (serial_reconnect_manual_port
           {| SERVER_ADDRESS := "tinethub.tkbstudios.com";
              SERVER_PORT := 2052; SERIAL := true; DEBUG := true;
              MANUAL_PORT := true; ENABLE_RECONNECT := true |}
           1%nat 2%nat
           (relaying (set_read_q [Raise SerialException]
                        (set_open_q [Raise SerialException] no_answers)))
           SerialException []
           eq_refl eq_refl eq_refl eq_refl eq_refl eq_refl eq_refl (le_n 2)).
Defined.




(* ================================================================== *)
(** ** More on the code: main and the life of the two threads *)
(* ================================================================== *)

Lemma sock_step_threads (cfg : config) (s : system) :
  pc_main (sock_step cfg s) = pc_main s
  /\ ser_thread (sys_world (sock_step cfg s)) = ser_thread (sys_world s)
  /\ (sock_thread (sys_world (sock_step cfg s)) = sock_thread (sys_world s)
      \/ (sock_thread (sys_world s) = Running
          /\ sock_thread (sys_world (sock_step cfg s)) = Finished)).
Proof.
  assert (Hgo : forall (c : M unit) (next : sock_pc),
             sock_thread (sys_world s) = Running ->
             preserves (fun w' => static w' = static (sys_world s)) c ->
             let s1 :=
               match c (sys_world s) with
               | (Ok _, w1) =>
                 {| sys_world := w1; pc_main := pc_main s; pc_sock := next;
                    pc_ser := pc_ser s |}
               | (Raise e, w1) =>
                 {| sys_world := set_sock_thread Finished w1;
                    pc_main := pc_main s; pc_sock := SockDone (Raise e);
                    pc_ser := pc_ser s |}
               | (Hang, _) => s
               end in
             pc_main s1 = pc_main s
             /\ ser_thread (sys_world s1) = ser_thread (sys_world s)
             /\ (sock_thread (sys_world s1) = sock_thread (sys_world s)
                 \/ (sock_thread (sys_world s) = Running
                     /\ sock_thread (sys_world s1) = Finished))).
  { intros c next Hrun Hc. pose proof (static_of c _ Hc) as H.
    destruct (c (sys_world s)) as [[[]|e|] w1]; cbn [snd] in H; cbv zeta;
      [| |repeat split; left; reflexivity];
      destruct (static_fields _ _ H) as (H0 & H1 & _ & _);
      cbn [sys_world pc_main]; repeat split; try assumption;
      [left; assumption|right; split; [assumption|reflexivity]]. }
  unfold sock_step.
  destruct (sock_thread (sys_world s)) eqn:Hst;
    [repeat split; left; exact Hst| |repeat split; left; exact Hst].
  destruct (pc_sock s).
  - apply Hgo; [reflexivity|]. intros w Hw. unfold startup_barrier.
    destruct (sock_serial_manager w); exact Hw.
  - apply Hgo; [reflexivity|apply static_socket_create].
  - apply Hgo; [reflexivity|apply static_socket_connect].
  - apply Hgo; [reflexivity|]. intros w Hw. exact Hw.
  - apply Hgo; [reflexivity|].
    apply pres_bind; [apply static_serial_manager_write|].
    intros _ w Hw. exact Hw.
  - destruct (sock_alive (sys_world s)).
    + apply Hgo; [reflexivity|apply static_SocketThread_run_body].
    + cbn [sys_world pc_main]. repeat split. right. split; reflexivity.
  - repeat split. left. exact Hst.
Qed.

Lemma ser_step_threads (cfg : config) (fuel : nat) (s : system) :
  ser_thread (sys_world (ser_step cfg fuel s)) = ser_thread (sys_world s)
  \/ (ser_thread (sys_world s) = Running
      /\ ser_thread (sys_world (ser_step cfg fuel s)) = Finished).
Proof.
  unfold ser_step.
  destruct (ser_thread (sys_world s)) eqn:Hst;
    [left; exact Hst| |left; exact Hst].
  destruct (pc_ser s); [|left; exact Hst].
  destruct (ser_alive (sys_world s) && sp_is_open (ser_serial (sys_world s)));
    [|right; split; reflexivity].
  pose proof (static_of _ _
                (static_SerialThread_run_body (static (sys_world s)) cfg fuel))
    as H.
  destruct (SerialThread_run_body cfg fuel (sys_world s)) as [[[]|e|] w1];
    cbn [snd] in H; [| |left; exact Hst];
    destruct (static_fields _ _ H) as (_ & H1 & _ & _);
    cbn [sys_world]; [left; congruence|right; split; reflexivity].
Qed.

(** The constructor of the serial channel leaves the thread states as
    [__init__] of [threading.Thread] sets them. *)
Lemma SerialThread_init_threads (cfg : config) (dev : string) (w : world) :
  sock_thread (snd (SerialThread_init cfg dev w)) = sock_thread w
  /\ ser_thread (snd (SerialThread_init cfg dev w)) = Unstarted.
Proof.
  unfold SerialThread_init, open_serial. open_world w.
  destruct (MANUAL_PORT cfg); run.
  - destruct open_q0 as [|[[]|e|] rest]; run; split; reflexivity.
  - destruct (find_serial_port_from scan_q0 trace0) as [[r rest] tr].
    destruct r as [p|]; run;
      [destruct open_q0 as [|[[]|e|] rest']; run|]; split; reflexivity.
Qed.

Lemma main_step_lifecycle (cfg : config) (p : port) (s : system) :
  lifecycle s -> lifecycle (main_step cfg p s).
Proof.
  destruct s as [w pm ps pr]. unfold lifecycle, main_step.
  cbn [pc_main sys_world pc_sock pc_ser]. destruct pm.
  - intros [H1 H2]. open_world w. subst. run. split; reflexivity.
  - intros [H1 H2].
    destruct (SerialThread_init_threads cfg (device p) w) as [Ha Hb].
    destruct (SerialThread_init cfg (device p) w) as [[[]|e|] w1];
      cbn [snd pc_main sys_world] in *; split; congruence.
  - intros [H1 H2]. open_world w. subst. split; reflexivity.
  - intros [H1 H2]. open_world w. subst. split; reflexivity.
  - intros [H1 H2]. open_world w. subst. split; [reflexivity|discriminate].
  - intros [H1 H2]. open_world w. subst. split; [discriminate|exact H2].
  - intros [H1 H2]. open_world w.
    destruct ser_thread0; try congruence; run; split; try assumption;
      reflexivity.
  - intros [H1 H2]. open_world w. subst.
    destruct sock_thread0; try congruence; run; split; try assumption;
      try reflexivity; discriminate.
  - intros H. exact H.
  - intros H. exact H.
Qed.

Lemma sock_step_lifecycle (cfg : config) (s : system) :
  lifecycle s -> lifecycle (sock_step cfg s).
Proof.
  intros H. destruct (sock_step_threads cfg s) as (Hpm & Hser & Hsock).
  unfold lifecycle in *. cbv zeta in *. rewrite Hpm, Hser.
  destruct (pc_main s) as [| | | | | | | | |[[]|e|]];
    destruct Hsock as [Hs|[Hr Hs]]; rewrite ?Hs; try exact H;
    destruct H as [H1 H2]; try congruence;
    split; try assumption; try discriminate; reflexivity.
Qed.

Lemma ser_step_lifecycle (cfg : config) (fuel : nat) (s : system) :
  lifecycle s -> lifecycle (ser_step cfg fuel s).
Proof.
  intros H.
  destruct (ser_step_keeps cfg fuel s) as (Hpm & _ & Hsock & _).
  pose proof (ser_step_threads cfg fuel s) as Hser.
  unfold lifecycle in *. cbv zeta in *. rewrite Hpm, Hsock.
  destruct (pc_main s) as [| | | | | | | | |[[]|e|]];
    destruct Hser as [Hs|[Hr Hs]]; rewrite ?Hs; try exact H;
    destruct H as [H1 H2]; try congruence;
    split; try assumption; try discriminate; reflexivity.
Qed.

Lemma exec_lifecycle (cfg : config) (p : port) (fuel : nat)
    (schedule : list thread_id) :
  forall s, lifecycle s -> lifecycle (exec cfg p fuel schedule s).
Proof.
  unfold exec. induction schedule as [|t rest IH]; intros s H; [exact H|].
  cbn [fold_left]. apply IH. destruct t; cbn [step].
  - apply main_step_lifecycle, H.
  - apply sock_step_lifecycle, H.
  - apply ser_step_lifecycle, H.
Qed.

(** Under any scheduling, [main] reaches [sys.exit(0)] only after both
    channel threads have ended, however they ended; and when [main]
    itself ends with an exception, it is the constructor of the serial
    channel that raised, and no thread was ever started. *)
Theorem main_exits_after_threads :
  forall (cfg : config) (p : port) (fuel : nat) (e : environment)
         (schedule : list thread_id),
    let s := exec cfg p fuel schedule (boot e) in
    ((pc_main s = L334 \/ pc_main s = MainDone (Ok tt)) ->
     sock_thread (sys_world s) = Finished
     /\ ser_thread (sys_world s) = Finished)
    /\ (forall x, pc_main s = MainDone (Raise x) ->
        sock_thread (sys_world s) = Unstarted
        /\ ser_thread (sys_world s) = Unstarted).
Proof.
  intros cfg p fuel e schedule s.
  assert (H : lifecycle s) by (apply exec_lifecycle; split; reflexivity).
  unfold lifecycle in H. cbv zeta in H. split.
  - intros [E|E]; rewrite E in H; exact H.
  - intros x E. rewrite E in H. exact H.
Qed.

Lemma main_exits_after_threads_witness :
  let p := {| device := "COM4"; description := "TI-84 Plus CE" |} in
  let e := set_scan_q [[p]]
             (set_recv_q [Ok (lit_bytes "DISCONNECT")]
                (set_read_q [Ok [xff]] no_answers)) in
  let s := exec source_config p 3
             [MainThread; MainThread; MainThread; MainThread; MainThread;
              MainThread; SocketT; SocketT; SocketT; SocketT; SocketT;
              SerialT; SocketT; SocketT; MainThread; MainThread; MainThread]
             (boot e) in
  pc_main s = MainDone (Ok tt)
  /\ pc_ser s = SerDone (Raise UnicodeDecodeError)
  /\ sock_thread (sys_world s) = Finished
  /\ ser_thread (sys_world s) = Finished.
Proof.
  cbv zeta. split; [vm_compute; reflexivity|].
  split; [vm_compute; reflexivity|].
  apply (proj1 (main_exits_after_threads source_config
                  {| device := "COM4"; description := "TI-84 Plus CE" |}
                  3%nat
                  (set_scan_q [[ {| device := "COM4";
                                    description := "TI-84 Plus CE" |} ]]
                     (set_recv_q [Ok (lit_bytes "DISCONNECT")]
                        (set_read_q [Ok [xff]] no_answers)))
                  [MainThread; MainThread; MainThread; MainThread;
                   MainThread; MainThread; SocketT; SocketT; SocketT;
                   SocketT; SocketT; SerialT; SocketT; SocketT; MainThread;
                   MainThread; MainThread])).
  right. vm_compute. reflexivity.
Defined.

(** Under any scheduling, the serial thread runs only with both peer
    references set: its reader never finds [socket_manager] unset. *)
Theorem serial_thread_starts_wired :
  forall (cfg : config) (p : port) (fuel : nat) (e : environment)
         (schedule : list thread_id),
    let s := exec cfg p fuel schedule (boot e) in
    ser_thread (sys_world s) <> Unstarted ->
    ser_socket_manager (sys_world s) = true
    /\ sock_serial_manager (sys_world s) = true.
Proof.
  intros cfg p fuel e schedule s Hst.
  assert (H : startup_invariant s).
  { apply exec_invariant. cbn. repeat split. }
  unfold startup_invariant, quiet, wired in H. cbv zeta in H.
  destruct (pc_main s);
    repeat match goal with
           | H : _ /\ _ |- _ => destruct H
           | H : _ \/ _ |- _ => destruct H
           end; try congruence; split; assumption.
Qed.

Lemma serial_thread_starts_wired_witness :
  let p := {| device := "COM4"; description := "TI-84 Plus CE" |} in
  let s := exec source_config p 3
             [SerialT; MainThread; MainThread; MainThread; MainThread;
              MainThread; SerialT]
             (boot (set_scan_q [[p]]
                      (set_read_q [Ok (lit_bytes "hi")] no_answers))) in
  pc_ser s = SerDone (Raise AttributeError)
  /\ ser_socket_manager (sys_world s) = true.
Proof.
  cbv zeta. split; [vm_compute; reflexivity|].
  apply (serial_thread_starts_wired source_config
           {| device := "COM4"; description := "TI-84 Plus CE" |} 3%nat
           (set_scan_q [[ {| device := "COM4";
                             description := "TI-84 Plus CE" |} ]]
              (set_read_q [Ok (lit_bytes "hi")] no_answers))
           [SerialT; MainThread; MainThread; MainThread; MainThread;
            MainThread; SerialT]).
  vm_compute. discriminate.
Defined.
